(** * QUIC wire format: header parser and variable-length integers

    A shallow embedding of [HeaderParser] (long and short packet headers,
    coalesced datagrams) together with the collaborators it calls: Node's
    [Buffer], the variable-length integer codec [VLIE], the wire value
    types and the version validator. *)

From Stdlib Require Import ZArith List Lia Bool Sorted.
From Stdlib.Strings Require Import Byte.
Import ListNotations.
Open Scope Z_scope.

(** ** Failures

    The parser has no error type of its own: it lets the exceptions of
    the functions it calls escape, and throws one [Error] itself. They are
    named after the error kinds of the wire-format contract. *)
Inductive error : Type :=
| TruncatedInput            (* RangeError of Buffer.readUInt8 / readUIntBE (offset outside the buffer); incomplete VarInt *)
| InvalidFieldLength        (* a wire value type refuses the bytes it is built from *)
| ValueTooLarge             (* VarInt encode of a value beyond 62 bits *)
| InvalidPacketNumberWidth. (* Error("Not a valid packet type") *)

Inductive result (A : Type) : Type :=
| Ok (a : A)
| Err (e : error).
Arguments Ok {A} a.
Arguments Err {A} e.

Definition bind {A B : Type} (r : result A) (k : A -> result B) : result B :=
  match r with
  | Ok a => k a
  | Err e => Err e
  end.

Notation "x <- r ;; k" := (bind r (fun x => k))
  (at level 61, r at next level, right associativity).

Definition validated {A : Type} (o : option A) : result A :=
  match o with
  | Some a => Ok a
  | None => Err InvalidFieldLength
  end.

(** ** Node's Buffer, as far as the parser uses it *)
Module Buffer.

Definition t : Type := list byte.

Definition u8 (b : byte) : Z := Z.of_N (Byte.to_N b).

Definition byte_of_Z (z : Z) : byte :=
  match Byte.of_N (Z.to_N (z mod 256)) with
  | Some b => b
  | None => x00
  end.

Definition byteLength (buf : t) : Z := Z.of_nat (length buf).

(* buf[i] for an index known to be inside the buffer *)
Definition at_ (buf : t) (i : Z) : Z := u8 (nth (Z.to_nat i) buf x00).

(* buf.readUInt8(offset): throws a RangeError unless 0 <= offset <= length - 1 *)
Definition readUInt8 (buf : t) (offset : Z) : result Z :=
  if (0 <=? offset) && (offset <? byteLength buf)
  then Ok (at_ buf offset)
  else Err TruncatedInput.

(* big-endian value of a run of bytes, continuing from [acc] *)
Definition fromBytesBE (acc : Z) (bs : t) : Z :=
  fold_left (fun a b => a * 256 + u8 b) bs acc.

(* the [n] low-order bytes of [x], most significant first *)
Fixpoint toBytesBE (n : nat) (x : Z) : t :=
  match n with
  | O => []
  | S n' => byte_of_Z (x / 256 ^ Z.of_nat n') :: toBytesBE n' x
  end.

(* buf.readUIntBE(offset, byteLength): throws a RangeError unless the
   whole field lies inside the buffer *)
Definition readUIntBE (buf : t) (offset : Z) (n : Z) : result Z :=
  if (0 <=? offset) && (offset + n <=? byteLength buf)
  then Ok (fromBytesBE 0 (firstn (Z.to_nat n) (skipn (Z.to_nat offset) buf)))
  else Err TruncatedInput.

(* the index clamping of Buffer.prototype.slice *)
Definition adjustOffset (offset length : Z) : Z :=
  if offset <? 0 then Z.max 0 (offset + length)
  else if offset <? length then offset
  else length.

(* buf.slice(start, end): never throws, both ends are clamped *)
Definition slice (buf : t) (start end_ : Z) : t :=
  let srcLength := byteLength buf in
  let start := adjustOffset start srcLength in
  let end_ := adjustOffset end_ srcLength in
  let newLength := if start <? end_ then end_ - start else 0 in
  firstn (Z.to_nat newLength) (skipn (Z.to_nat start) buf).

(* Buffer.alloc(size): zero-filled *)
Definition alloc (size : Z) : t := repeat x00 (Z.to_nat size).

(* source.copy(target, targetStart, sourceStart, sourceEnd) for
   0 <= targetStart and 0 <= sourceStart <= source.length (no throw there):
   the target after the copy.  The copied run is cut to what the source
   holds and to what the target has room for. *)
Definition copy (source target : t) (targetStart sourceStart sourceEnd : Z) : t :=
  let room := byteLength target - targetStart in
  let avail := byteLength source - sourceStart in
  let nb := Z.min (Z.min (sourceEnd - sourceStart) room) avail in
  if nb <=? 0 then target
  else firstn (Z.to_nat targetStart) target
       ++ firstn (Z.to_nat nb) (skipn (Z.to_nat sourceStart) source)
       ++ skipn (Z.to_nat (targetStart + nb)) target.

End Buffer.

(** ** The variable-length integer codec *)
Module VLIE.

Record VLIEOffset : Type := mkVLIEOffset { value : Z; offset : Z }.

(** Modelled from the spec: the module [vlie] ([VLIE.decode], [VLIE.encode],
    [VLIE.getEncodedByteLength]) is imported by the sources but is not among
    them.  The first byte's top two bits select the length 1, 2, 4 or 8;
    the value is what remains, big-endian, with those two bits masked off;
    decoding fails with [TruncatedInput] when fewer bytes remain. *)
Definition decode (buf : Buffer.t) (off : Z) : result VLIEOffset :=
  first <- Buffer.readUInt8 buf off ;;
  let L := 2 ^ (Z.shiftr first 6) in
  if off + L <=? Buffer.byteLength buf then
    let rest := firstn (Z.to_nat (L - 1)) (skipn (Z.to_nat (off + 1)) buf) in
    Ok (mkVLIEOffset (Buffer.fromBytesBE (Z.land first 0x3F) rest) (off + L))
  else Err TruncatedInput.

(** Modelled from the spec: the smallest of the four forms that holds the
    value, which has 6, 14, 30 or 62 usable bits. *)
Definition getEncodedByteLength (v : Z) : Z :=
  if v <? 2 ^ 6 then 1
  else if v <? 2 ^ 14 then 2
  else if v <? 2 ^ 30 then 4
  else 8.

(** Modelled from the spec: the length selector goes into the top two
    bits of the first byte; a value outside the 62-bit range is refused
    with [ValueTooLarge]. *)
Definition encode (v : Z) : result Buffer.t :=
  if (0 <=? v) && (v <? 2 ^ 62) then
    let L := getEncodedByteLength v in
    let selector := Z.log2 L in
    Ok (Buffer.toBytesBE (Z.to_nat L) (v + selector * 2 ^ (8 * L - 2)))
  else Err ValueTooLarge.

End VLIE.

(** ** Wire value types

    [Version], [ConnectionID] and [PacketNumber] (header.properties) are
    imported by the parser but are not among the sources.  The parser only
    builds them from byte slices, so they are taken as an interface: a
    constructor either wraps the bytes or refuses them, which the parser
    lets escape as [InvalidFieldLength]. *)
Class WireTypes : Type := {
  Version : Type;
  ConnectionID : Type;
  PacketNumber : Type;
  newVersion : Buffer.t -> option Version;
  newConnectionID : Buffer.t -> Z -> option ConnectionID;
  newPacketNumber : Buffer.t -> option PacketNumber
}.

(** Modelled from the spec: the enumeration [ShortHeaderType] of
    short.header is imported but not among the sources; the selector values
    0, 1 and 2 are enumerated One-, Two- and Four-Octet. *)
Module ShortHeaderType.
Definition OneOctet : Z := 0.
Definition TwoOctet : Z := 1.
Definition FourOctet : Z := 2.
End ShortHeaderType.

Module LongHeader.
Record t {W : WireTypes} : Type := mk {
  type : Z;
  destConnectionID : ConnectionID;
  srcConnectionID : ConnectionID;
  packetNumber : option PacketNumber;   (* undefined for version negotiation *)
  payloadLength : option Z;             (* undefined for version negotiation *)
  version : Version;
  parsedBuffer : option Buffer.t
}.
Definition new {W : WireTypes} type destConnectionID srcConnectionID
    packetNumber payloadLength version : t :=
  mk W type destConnectionID srcConnectionID packetNumber payloadLength version None.
Definition setParsedBuffer {W : WireTypes} (h : t) (parsed : Buffer.t) : t :=
  mk W (type h) (destConnectionID h) (srcConnectionID h) (packetNumber h)
     (payloadLength h) (version h) (Some parsed).
Definition getPayloadLength {W : WireTypes} (h : t) : option Z := payloadLength h.
End LongHeader.

Module ShortHeader.
Record t {W : WireTypes} : Type := mk {
  type : Z;
  destConnectionID : ConnectionID;
  packetNumber : PacketNumber;
  keyPhaseBit : bool;
  spinBit : bool;
  parsedBuffer : option Buffer.t
}.
Definition new {W : WireTypes} type destConnectionID packetNumber keyPhaseBit spinBit : t :=
  mk W type destConnectionID packetNumber keyPhaseBit spinBit None.
Definition setParsedBuffer {W : WireTypes} (h : t) (parsed : Buffer.t) : t :=
  mk W (type h) (destConnectionID h) (packetNumber h) (keyPhaseBit h) (spinBit h)
     (Some parsed).
End ShortHeader.

(* BaseHeader with its header type (HeaderType.LongHeader or
   HeaderType.ShortHeader) as the tag *)
Inductive BaseHeader {W : WireTypes} : Type :=
| LongH (h : LongHeader.t)
| ShortH (h : ShortHeader.t).

Definition getParsedBuffer {W : WireTypes} (h : BaseHeader) : option Buffer.t :=
  match h with
  | LongH l => LongHeader.parsedBuffer l
  | ShortH s => ShortHeader.parsedBuffer s
  end.

(** ** The header parser *)
Module HeaderParser.
Section Parser.
Context {W : WireTypes}.
(* VersionValidation.IsVersionNegotationFlag, an external collaborator *)
Variable IsVersionNegotationFlag : Version -> bool.
(* VLIE.decode, not among the sources *)
Variable VLIE_decode : Buffer.t -> Z -> result VLIE.VLIEOffset.

Record HeaderOffset : Type := mkHeaderOffset {
  header : BaseHeader;
  offset : Z
}.

(* the connection-ID length a 4-bit class stands for *)
Definition connectionIDLength (class : Z) : Z :=
  if class =? 0 then class else class + 3.

Definition parseLongHeader (buf : Buffer.t) (offset : Z) : result HeaderOffset :=
  let startOffset := offset in
  first <- Buffer.readUInt8 buf offset ;;
  let type := first - 0x80 in
  let offset := offset + 1 in
  version <- validated (newVersion (Buffer.slice buf offset (offset + 4))) ;;
  let offset := offset + 4 in
  conLengths <- Buffer.readUInt8 buf offset ;;
  let offset := offset + 1 in
  let destLength := connectionIDLength (Z.shiftr conLengths 4) in
  let srcLength := connectionIDLength (Z.land conLengths 0xF) in
  destConnectionID <-
    validated (newConnectionID (Buffer.slice buf offset (offset + destLength)) destLength) ;;
  let offset := offset + destLength in
  srcConnectionID <-
    validated (newConnectionID (Buffer.slice buf offset (offset + srcLength)) srcLength) ;;
  let offset := offset + srcLength in
  rest <-
    (if negb (IsVersionNegotationFlag version) then
       vlieOffset <- VLIE_decode buf offset ;;
       let payloadLength := VLIE.value vlieOffset in
       let offset := VLIE.offset vlieOffset in
       packetNumber <- validated (newPacketNumber (Buffer.slice buf offset (offset + 4))) ;;
       let offset := offset + 4 in
       Ok (Some packetNumber, Some payloadLength, offset)
     else Ok (None, None, offset)) ;;
  let '(packetNumber, payloadLength, offset) := rest in
  let header :=
    LongHeader.new type destConnectionID srcConnectionID packetNumber payloadLength version in
  let parsedBuffer := Buffer.slice buf startOffset offset in
  let header := LongHeader.setParsedBuffer header parsedBuffer in
  Ok (mkHeaderOffset (LongH header) offset).

Definition correctShortHeaderType (type : Z) : Z := Z.land type 0x3.

Definition getShortHeaderPacketNumber (type : Z) (buffer : Buffer.t) (offset : Z)
    : result PacketNumber :=
  if type =? ShortHeaderType.OneOctet then
    validated (newPacketNumber (Buffer.slice buffer offset (offset + 1)))
  else if type =? ShortHeaderType.TwoOctet then
    validated (newPacketNumber (Buffer.slice buffer offset (offset + 2)))
  else if type =? ShortHeaderType.FourOctet then
    validated (newPacketNumber (Buffer.slice buffer offset (offset + 4)))
  else Err InvalidPacketNumberWidth.

Definition parseShortHeader (buf : Buffer.t) (offset : Z) : result HeaderOffset :=
  let startOffset := offset in
  type <- Buffer.readUIntBE buf offset 1 ;;
  let offset := offset + 1 in
  let keyPhaseBit := Z.land type 0x40 =? 0x40 in
  let spinBit := Z.land type 0x04 =? 0x04 in
  let type := correctShortHeaderType type in
  destLen <- Buffer.readUInt8 buf offset ;;
  let destConIDBuffer := Buffer.alloc destLen in
  let destConIDBuffer := Buffer.copy buf destConIDBuffer 0 offset (offset + destLen) in
  destConnectionID <- validated (newConnectionID destConIDBuffer destLen) ;;
  let offset := offset + destLen in
  packetNumber <- getShortHeaderPacketNumber type buf offset ;;
  let offset := offset + Z.shiftl 1 type in
  let header := ShortHeader.new type destConnectionID packetNumber keyPhaseBit spinBit in
  let parsedBuffer := Buffer.slice buf startOffset offset in
  let header := ShortHeader.setParsedBuffer header parsedBuffer in
  Ok (mkHeaderOffset (ShortH header) offset).

Definition parseHeader (buf : Buffer.t) (offset : Z) : result HeaderOffset :=
  type <- Buffer.readUIntBE buf offset 1 ;;
  if Z.land type 0x80 =? 0x80 then parseLongHeader buf offset
  else parseShortHeader buf offset.

(* One test of the while loop's condition and, when it holds, one run of
   its body: the loop either goes on with a new state, or ends. *)
Inductive step_result : Type :=
| Continue (headerOffsets : list HeaderOffset) (headerOffset : HeaderOffset) (totalSize : Z)
| Done (r : result (list HeaderOffset)).

Definition parse_step (buf : Buffer.t) (headerOffsets : list HeaderOffset)
    (headerOffset : HeaderOffset) (totalSize : Z) : step_result :=
  match header headerOffset with
  | LongH longHeader =>
    match LongHeader.getPayloadLength longHeader with
    | Some payloadLength =>
      let headerSize := offset headerOffset - totalSize in
      let totalSize := totalSize + payloadLength + headerSize in
      if totalSize <? Buffer.byteLength buf then
        match parseHeader buf totalSize with
        | Ok headerOffset => Continue (headerOffsets ++ [headerOffset]) headerOffset totalSize
        | Err e => Done (Err e)
        end
      else Done (Ok headerOffsets)
    | None => Done (Ok headerOffsets)
    end
  | ShortH _ => Done (Ok headerOffsets)
  end.

(* The while loop, cut off after [fuel] tests of its condition: [None]
   when the loop is then still running. *)
Fixpoint parse_while (fuel : nat) (buf : Buffer.t) (headerOffsets : list HeaderOffset)
    (headerOffset : HeaderOffset) (totalSize : Z) : option (result (list HeaderOffset)) :=
  match fuel with
  | O => None
  | S fuel' =>
    match parse_step buf headerOffsets headerOffset totalSize with
    | Continue headerOffsets headerOffset totalSize =>
      parse_while fuel' buf headerOffsets headerOffset totalSize
    | Done r => Some r
    end
  end.

Definition parse_fuel (fuel : nat) (buf : Buffer.t) : option (result (list HeaderOffset)) :=
  match parseHeader buf 0 with
  | Ok headerOffset => parse_while fuel buf [headerOffset] headerOffset 0
  | Err e => Some (Err e)
  end.

(* A datagram of n bytes never needs more than n + 1 tests of the loop
   condition. *)
Definition parse (buf : Buffer.t) : option (result (list HeaderOffset)) :=
  parse_fuel (S (length buf)) buf.

End Parser.
End HeaderParser.

(** ** A reference instance of the collaborators *)
Module SpecWire.

Record ConnectionID_ : Type := mkConnectionID { cid_bytes : Buffer.t; cid_length : Z }.

Definition validConnectionIDLength (len : Z) : bool :=
  (len =? 0) || ((4 <=? len) && (len <=? 18)).

(** Modelled from the spec: the wire value types wrap a byte slice and
    validate only their own invariant: a Version is exactly 4 bytes, a
    ConnectionID has length 0 or 4 to 18, a PacketNumber has none. *)
#[export] Instance wire : WireTypes := {|
  Version := Buffer.t;
  ConnectionID := ConnectionID_;
  PacketNumber := Buffer.t;
  newVersion := fun b => if Buffer.byteLength b =? 4 then Some b else None;
  newConnectionID := fun b len =>
    if validConnectionIDLength len then Some (mkConnectionID b len) else None;
  newPacketNumber := fun b => Some b
|}.

(** Modelled from the spec: the version validator is an external
    collaborator; the negotiation indicator is the all-zero wire pattern. *)
Definition IsVersionNegotationFlag (v : Buffer.t) : bool :=
  forallb (fun b => Buffer.u8 b =? 0) v.

(* the parser with the reference collaborators plugged in *)
Definition parseLongHeader := HeaderParser.parseLongHeader IsVersionNegotationFlag VLIE.decode.
Definition parseShortHeader := HeaderParser.parseShortHeader (W := wire).
Definition parseHeader := HeaderParser.parseHeader IsVersionNegotationFlag VLIE.decode.
Definition parse := HeaderParser.parse IsVersionNegotationFlag VLIE.decode.

End SpecWire.

(** ** Sample datagrams *)
Module Samples.

(* a long header: type 0x7f, version 1, no connection IDs, payload length 2,
   packet number 1; then the 2 payload bytes *)
Definition long_packet_1 : Buffer.t :=
  [xff; x00; x00; x00; x01; x00; x02; x00; x00; x00; x01; xaa; xbb].

(* the same with payload length 1, packet number 2 and 1 payload byte *)
Definition long_packet_2 : Buffer.t :=
  [xff; x00; x00; x00; x01; x00; x01; x00; x00; x00; x02; xcc].

(* a short header: selector 1 (two-octet packet number), a 4-byte
   destination connection ID that starts with its own length *)
Definition short_header : Buffer.t := [x01; x04; xa1; xa2; xa3; x12; x34].

Definition short_payload : Buffer.t := [xde; xad].

Definition two_long_packets : Buffer.t := long_packet_1 ++ long_packet_2.

Definition long_then_short : Buffer.t := long_packet_1 ++ short_header ++ short_payload.

(* version negotiation: version 0, an 8-byte destination connection ID
   (class 5), no source connection ID, then the supported versions *)
Definition version_negotiation : Buffer.t :=
  [xff; x00; x00; x00; x00; x50; x01; x02; x03; x04; x05; x06; x07; x08;
   x00; x00; x00; x01].

(* a long header cut off after the first byte of its packet number *)
Definition long_cut_in_packet_number : Buffer.t :=
  [xc0; x00; x00; x00; x01; x00; x05; xab].

(* a short header with selector 2 (four-octet packet number) cut off after
   the second byte of its packet number *)
Definition short_cut_in_packet_number : Buffer.t :=
  [x02; x04; xa1; xa2; xa3; x11; x22].

(* a short header with selector 2 whose first byte also has the
   key-phase and spin bits set *)
Definition short_with_flags : Buffer.t :=
  [x46; x04; xa1; xa2; xa3; x01; x02; x03; x04].

(* a short header whose first byte has both low bits set *)
Definition short_selector_3 : Buffer.t :=
  [x03; x04; xa1; xa2; xa3; x09; x09; x09; x09].

End Samples.

(** ** The packets of a datagram

    What [parse] is expected to enumerate, stated on its own: the header
    at [start], and, as long as that header is a long header with a payload
    length that ends inside the buffer, the packets that start where its
    payload ends. *)
Module Datagram.
Section Packets.
Context {W : WireTypes}.
Variable IsVersionNegotationFlag : Version -> bool.
Variable VLIE_decode : Buffer.t -> Z -> result VLIE.VLIEOffset.

(* the header is the last one [parse] looks at *)
Definition terminal (buf : Buffer.t) (ho : HeaderParser.HeaderOffset) : Prop :=
  match HeaderParser.header ho with
  | ShortH _ => True
  | LongH lh =>
    match LongHeader.payloadLength lh with
    | None => True
    | Some pl => Buffer.byteLength buf <= HeaderParser.offset ho + pl
    end
  end.

Inductive packets (buf : Buffer.t) : Z -> list HeaderParser.HeaderOffset -> Prop :=
| packets_last (start : Z) ho :
    HeaderParser.parseHeader IsVersionNegotationFlag VLIE_decode buf start = Ok ho ->
    terminal buf ho ->
    packets buf start [ho]
| packets_next (start : Z) ho lh pl rest :
    HeaderParser.parseHeader IsVersionNegotationFlag VLIE_decode buf start = Ok ho ->
    HeaderParser.header ho = LongH lh ->
    LongHeader.payloadLength lh = Some pl ->
    HeaderParser.offset ho + pl < Buffer.byteLength buf ->
    packets buf (HeaderParser.offset ho + pl) rest ->
    packets buf start (ho :: rest).

End Packets.
End Datagram.

(** ** The HTTP/3 SETTINGS frame *)
Module Http3SettingsFrame.

Record Http3Setting : Type := mkHttp3Setting { identifier : Z; value : Z }.

(* buf.writeUInt8(value, offset) for a byte value: the buffer after the
   write; throws a RangeError unless 0 <= offset <= length - 1 *)
Definition writeUInt8 (buf : Buffer.t) (v : byte) (offset : Z) : result Buffer.t :=
  if (0 <=? offset) && (offset <? Buffer.byteLength buf)
  then Ok (firstn (Z.to_nat offset) buf ++ v :: skipn (Z.to_nat (offset + 1)) buf)
  else Err TruncatedInput.

(* Buffer.alloc(size), which throws a RangeError on a negative size *)
Definition alloc (size : Z) : result Buffer.t :=
  if size <? 0 then Err TruncatedInput else Ok (Buffer.alloc size).

Section Frame.
(* VLIE.encode, VLIE.decode and VLIE.getEncodedByteLength, not among the
   sources *)
Variable VLIE_encode : Z -> result Buffer.t.
Variable VLIE_decode : Buffer.t -> Z -> result VLIE.VLIEOffset.
Variable VLIE_getEncodedByteLength : Z -> Z.
(* Http3FrameType.SETTINGS, written with writeUInt8 *)
Variable SETTINGS : byte.

(* the frame is its list of parameters *)
Record t : Type := new { settingsParameters : list Http3Setting }.

Definition parseParameter (buffer : Buffer.t) (offset : Z) : result (Http3Setting * Z) :=
  vlieOffset <- VLIE_decode buffer offset ;;
  let identifier := VLIE.value vlieOffset in
  let offset := VLIE.offset vlieOffset in
  vlieOffset <- VLIE_decode buffer offset ;;
  let value := VLIE.value vlieOffset in
  let offset := VLIE.offset vlieOffset in
  Ok (mkHttp3Setting identifier value, offset).

(* The while loop of parseParameters, cut off after [fuel] tests of its
   condition: [None] when the loop is then still running. *)
Fixpoint parseParameters_while (fuel : nat) (buffer : Buffer.t) (offset : Z)
    (params : list Http3Setting) : option (result (list Http3Setting * Z)) :=
  match fuel with
  | O => None
  | S fuel' =>
    if offset <? Buffer.byteLength buffer then
      match parseParameter buffer offset with
      | Ok (param, offset) => parseParameters_while fuel' buffer offset (params ++ [param])
      | Err e => Some (Err e)
      end
    else Some (Ok (params, offset))
  end.

(* Each run of the body moves the offset forward, so the distance to the
   buffer end plus one bounds the tests of the condition. *)
Definition parseParameters (buffer : Buffer.t) (offset : Z)
    : option (result (list Http3Setting * Z)) :=
  parseParameters_while (S (Z.to_nat (Buffer.byteLength buffer - offset))) buffer offset [].

Definition fromPayload (buffer : Buffer.t) (offset : Z) : option (result t) :=
  match parseParameters buffer offset with
  | Some (Ok (params, _)) => Some (Ok (new params))
  | Some (Err e) => Some (Err e)
  | None => None
  end.

Definition getPayloadLength (frame : t) : Z :=
  fold_left
    (fun length param =>
       length + VLIE_getEncodedByteLength (identifier param)
              + VLIE_getEncodedByteLength (value param))
    (settingsParameters frame) 0.

Definition settingsParameterToBuffer (param : Http3Setting) : result Buffer.t :=
  id <- VLIE_encode (identifier param) ;;
  v <- VLIE_encode (value param) ;;
  Ok (id ++ v).

(* the for loop of payloadtoBuffer, from the buffer built so far *)
Fixpoint payloadtoBuffer_from (buffer : Buffer.t) (params : list Http3Setting)
    : result Buffer.t :=
  match params with
  | [] => Ok buffer
  | param :: params' =>
    b <- settingsParameterToBuffer param ;;
    payloadtoBuffer_from (buffer ++ b) params'
  end.

Definition payloadtoBuffer (frame : t) : result Buffer.t :=
  payloadtoBuffer_from [] (settingsParameters frame).

Definition toBuffer (frame : t) : result Buffer.t :=
  encodedLength <- VLIE_encode (getPayloadLength frame) ;;
  buffer <- alloc (Buffer.byteLength encodedLength + 1 + getPayloadLength frame) ;;
  let buffer :=
    Buffer.copy encodedLength buffer 0 0 (Buffer.byteLength encodedLength) in
  buffer <- writeUInt8 buffer SETTINGS (Buffer.byteLength encodedLength) ;;
  payload <- payloadtoBuffer frame ;;
  Ok (Buffer.copy payload buffer (Buffer.byteLength encodedLength + 1) 0
        (Buffer.byteLength payload)).

End Frame.
End Http3SettingsFrame.

(** ** A sample SETTINGS frame *)
Module SettingsSamples.

(* two parameters: identifier 1 with value 100, identifier 6 with value 16384 *)
Definition frame : Http3SettingsFrame.t :=
  Http3SettingsFrame.new
    [Http3SettingsFrame.mkHttp3Setting 1 100; Http3SettingsFrame.mkHttp3Setting 6 16384].

(* the frame type byte used for the sample *)
Definition SETTINGS : byte := x04.

(* the sample's payload: 01, 4064, 06, 80004000 *)
Definition payload : Buffer.t := [x01; x40; x64; x06; x80; x00; x40; x00].

End SettingsSamples.

(** * Properties *)

(** ** The error monad *)

Lemma bind_Ok_inv {A B : Type} (r : result A) (k : A -> result B) (b : B) :
  bind r k = Ok b -> exists a, r = Ok a /\ k a = Ok b.
Proof. destruct r as [a|e]; simpl; [eauto | discriminate]. Qed.

Lemma validated_Ok_inv {A : Type} (o : option A) (a : A) :
  validated o = Ok a -> o = Some a.
Proof. destruct o; simpl; congruence. Qed.

(** ** Buffer *)

Lemma u8_range (b : byte) : 0 <= Buffer.u8 b < 256.
Proof.
  unfold Buffer.u8. pose proof (Byte.to_N_bounded b) as H. lia.
Qed.

Lemma u8_byte_of_Z (z : Z) : Buffer.u8 (Buffer.byte_of_Z z) = z mod 256.
Proof.
  unfold Buffer.u8, Buffer.byte_of_Z.
  assert (Hr : 0 <= z mod 256 < 256) by (apply Z.mod_pos_bound; lia).
  destruct (Byte.of_N (Z.to_N (z mod 256))) as [b|] eqn:E.
  - apply Byte.to_of_N in E. rewrite E. lia.
  - apply Byte.of_N_None_iff in E. lia.
Qed.

Lemma byteLength_nonneg (buf : Buffer.t) : 0 <= Buffer.byteLength buf.
Proof. unfold Buffer.byteLength. lia. Qed.

Lemma byteLength_app (a b : Buffer.t) :
  Buffer.byteLength (a ++ b) = Buffer.byteLength a + Buffer.byteLength b.
Proof. unfold Buffer.byteLength. rewrite length_app. lia. Qed.

Lemma readUInt8_Ok_inv (buf : Buffer.t) (off v : Z) :
  Buffer.readUInt8 buf off = Ok v ->
  0 <= off < Buffer.byteLength buf /\ v = Buffer.at_ buf off /\ 0 <= v < 256.
Proof.
  unfold Buffer.readUInt8.
  destruct ((0 <=? off) && (off <? Buffer.byteLength buf)) eqn:E; [|discriminate].
  intros H. injection H as <-.
  apply andb_prop in E. destruct E as [E1 E2].
  apply Z.leb_le in E1. apply Z.ltb_lt in E2.
  repeat split; try lia; unfold Buffer.at_; apply u8_range.
Qed.

Lemma readUInt8_in_range (buf : Buffer.t) (off : Z) :
  0 <= off < Buffer.byteLength buf ->
  Buffer.readUInt8 buf off = Ok (Buffer.at_ buf off).
Proof.
  intros H. unfold Buffer.readUInt8.
  destruct (Z.leb_spec 0 off); [|lia].
  destruct (Z.ltb_spec off (Buffer.byteLength buf)); [|lia].
  reflexivity.
Qed.

Lemma readUInt8_out_of_range (buf : Buffer.t) (off : Z) :
  ~ (0 <= off < Buffer.byteLength buf) ->
  Buffer.readUInt8 buf off = Err TruncatedInput.
Proof.
  intros H. unfold Buffer.readUInt8.
  destruct (Z.leb_spec 0 off); destruct (Z.ltb_spec off (Buffer.byteLength buf));
    simpl; try reflexivity; lia.
Qed.

(** ** Big-endian runs of bytes *)

Lemma toBytesBE_length (n : nat) (x : Z) : length (Buffer.toBytesBE n x) = n.
Proof. induction n as [|n IH]; simpl; [reflexivity | now rewrite IH]. Qed.

Lemma fromBytesBE_toBytesBE (n : nat) : forall acc x,
  Buffer.fromBytesBE acc (Buffer.toBytesBE n x)
  = acc * 256 ^ Z.of_nat n + x mod 256 ^ Z.of_nat n.
Proof.
  induction n as [|n IH]; intros acc x.
  - simpl. rewrite Z.mod_1_r. lia.
  - change (Buffer.fromBytesBE acc (Buffer.toBytesBE (S n) x))
      with (Buffer.fromBytesBE
              (acc * 256 + Buffer.u8 (Buffer.byte_of_Z (x / 256 ^ Z.of_nat n)))
              (Buffer.toBytesBE n x)).
    rewrite IH, u8_byte_of_Z.
    replace (Z.of_nat (S n)) with (Z.of_nat n + 1) by lia.
    rewrite Z.pow_add_r, Z.pow_1_r by lia.
    assert (Hp : 0 < 256 ^ Z.of_nat n) by (apply Z.pow_pos_nonneg; lia).
    rewrite (Z.rem_mul_r x (256 ^ Z.of_nat n) 256) by lia.
    ring.
Qed.

(** ** The VarInt codec *)

(* decoding the [S n]-byte form with selector [s] *)
Lemma decode_toBytesBE (s : Z) (n : nat) (v : Z) :
  0 <= s < 4 ->
  2 ^ s = Z.of_nat (S n) ->
  0 <= v < 64 * 256 ^ Z.of_nat n ->
  VLIE.decode (Buffer.toBytesBE (S n) (v + s * (64 * 256 ^ Z.of_nat n))) 0
  = Ok (VLIE.mkVLIEOffset v (Z.of_nat (S n))).
Proof.
  intros Hs HL Hv.
  set (P := 256 ^ Z.of_nat n) in *.
  assert (HP : 0 < P) by (apply Z.pow_pos_nonneg; lia).
  set (x := v + s * (64 * P)).
  assert (Hq : 0 <= v / P < 64).
  { split; [apply Z.div_pos; lia | apply Z.div_lt_upper_bound; lia]. }
  assert (Hx : x / P = v / P + s * 64).
  { unfold x. replace (s * (64 * P)) with (s * 64 * P) by ring.
    now rewrite Z.div_add by lia. }
  assert (Hfirst : Buffer.at_ (Buffer.toBytesBE (S n) x) 0 = v / P + s * 64).
  { unfold Buffer.at_. simpl. fold P. rewrite u8_byte_of_Z, Hx.
    apply Z.mod_small. lia. }
  unfold VLIE.decode.
  rewrite readUInt8_in_range
    by (unfold Buffer.byteLength; rewrite toBytesBE_length; lia).
  cbv beta iota delta [bind]. rewrite Hfirst.
  assert (Hsel : Z.shiftr (v / P + s * 64) 6 = s).
  { rewrite Z.shiftr_div_pow2 by lia. change (2 ^ 6) with 64.
    rewrite Z.div_add by lia. rewrite Z.div_small by lia. lia. }
  assert (Hval : Z.land (v / P + s * 64) 63 = v / P).
  { change 63 with (Z.ones 6). rewrite Z.land_ones by lia. change (2 ^ 6) with 64.
    rewrite Z.mod_add by lia. apply Z.mod_small. lia. }
  rewrite Hsel, HL, Hval.
  unfold Buffer.byteLength. rewrite toBytesBE_length.
  destruct (Z.leb_spec (0 + Z.of_nat (S n)) (Z.of_nat (S n))) as [_|]; [|lia].
  replace (Z.to_nat (Z.of_nat (S n) - 1)) with n by lia.
  change (Z.to_nat (0 + 1)) with 1%nat.
  change (skipn 1 (Buffer.toBytesBE (S n) x)) with (Buffer.toBytesBE n x).
  replace (firstn n (Buffer.toBytesBE n x)) with (Buffer.toBytesBE n x)
    by (symmetry; apply firstn_all2; rewrite toBytesBE_length; lia).
  rewrite fromBytesBE_toBytesBE. fold P.
  f_equal. f_equal.
  unfold x. replace (s * (64 * P)) with (s * 64 * P) by ring.
  rewrite Z.mod_add by lia.
  rewrite (Z.div_mod v P) at 3 by lia. ring.
Qed.

Lemma getEncodedByteLength_cases (v : Z) :
  0 <= v < 2 ^ 62 ->
  (v < 2 ^ 6 /\ VLIE.getEncodedByteLength v = 1) \/
  (2 ^ 6 <= v < 2 ^ 14 /\ VLIE.getEncodedByteLength v = 2) \/
  (2 ^ 14 <= v < 2 ^ 30 /\ VLIE.getEncodedByteLength v = 4) \/
  (2 ^ 30 <= v /\ VLIE.getEncodedByteLength v = 8).
Proof.
  intros Hv. unfold VLIE.getEncodedByteLength.
  destruct (Z.ltb_spec v (2 ^ 6)); [left; lia|].
  destruct (Z.ltb_spec v (2 ^ 14)); [right; left; lia|].
  destruct (Z.ltb_spec v (2 ^ 30)); [right; right; left; lia|].
  right; right; right; lia.
Qed.

(** C10.  Every value of at most 62 bits is encoded, and decoding the
    encoding from offset 0 gives back the value and the encoding's length;
    the encoding has the length [getEncodedByteLength] announces, and no
    shorter of the four forms could hold the value. *)
Theorem VLIE_roundtrip_canonical (v : Z) :
  0 <= v < 2 ^ 62 ->
  exists b,
    VLIE.encode v = Ok b /\
    VLIE.decode b 0 = Ok (VLIE.mkVLIEOffset v (Buffer.byteLength b)) /\
    Buffer.byteLength b = VLIE.getEncodedByteLength v /\
    (forall L, In L [1; 2; 4; 8] -> v < 2 ^ (8 * L - 2) -> Buffer.byteLength b <= L).
Proof.
  intros Hv. unfold VLIE.encode.
  destruct (Z.leb_spec 0 v) as [_|]; [|lia].
  destruct (Z.ltb_spec v (2 ^ 62)) as [_|]; [|lia].
  simpl andb. cbv iota.
  eexists. split; [reflexivity|].
  assert (Hlen : forall n x, Buffer.byteLength (Buffer.toBytesBE n x) = Z.of_nat n).
  { intros. unfold Buffer.byteLength. now rewrite toBytesBE_length. }
  rewrite Hlen.
  destruct (getEncodedByteLength_cases v Hv)
    as [[H E]|[[H E]|[[H E]|[H E]]]]; rewrite E.
  - split; [|split; [reflexivity|]].
    + apply (decode_toBytesBE 0 0 v); [lia | reflexivity | simpl; lia].
    + intros L HL HvL. simpl in HL. change (Z.of_nat (Z.to_nat 1)) with 1. lia.
  - split; [|split; [reflexivity|]].
    + apply (decode_toBytesBE 1 1 v); [lia | reflexivity |].
      change (64 * 256 ^ Z.of_nat 1) with (2 ^ 14). lia.
    + intros L HL HvL. change (Z.of_nat (Z.to_nat 2)) with 2.
      simpl in HL. destruct HL as [<-|[<-|[<-|[<-|[]]]]]; lia.
  - split; [|split; [reflexivity|]].
    + apply (decode_toBytesBE 2 3 v); [lia | reflexivity |].
      change (64 * 256 ^ Z.of_nat 3) with (2 ^ 30). lia.
    + intros L HL HvL. change (Z.of_nat (Z.to_nat 4)) with 4.
      simpl in HL. destruct HL as [<-|[<-|[<-|[<-|[]]]]]; lia.
  - split; [|split; [reflexivity|]].
    + apply (decode_toBytesBE 3 7 v); [lia | reflexivity |].
      change (64 * 256 ^ Z.of_nat 7) with (2 ^ 62). lia.
    + intros L HL HvL. change (Z.of_nat (Z.to_nat 8)) with 8.
      simpl in HL. destruct HL as [<-|[<-|[<-|[<-|[]]]]]; lia.
Qed.

(* the codec on the sample values of the QUIC transport draft *)
Example encode_37 : VLIE.encode 37 = Ok [x25].
Proof. reflexivity. Qed.

Example encode_15293 : VLIE.encode 15293 = Ok [x7b; xbd].
Proof. reflexivity. Qed.

Example encode_494878333 : VLIE.encode 494878333 = Ok [x9d; x7f; x3e; x7d].
Proof. reflexivity. Qed.

Example encode_151288809941952652 :
  VLIE.encode 151288809941952652 = Ok [xc2; x19; x7c; x5e; xff; x14; xe8; x8c].
Proof. reflexivity. Qed.

Example encode_too_large : VLIE.encode (2 ^ 62) = Err ValueTooLarge.
Proof. reflexivity. Qed.

(* a two-byte encoding of 37 decodes, but is not what encode produces *)
Example decode_non_canonical :
  VLIE.decode [x40; x25] 0 = Ok (VLIE.mkVLIEOffset 37 2).
Proof. reflexivity. Qed.

Example decode_truncated : VLIE.decode [x7b] 0 = Err TruncatedInput.
Proof. reflexivity. Qed.

(** ** Slices, copies and single-byte reads *)

Lemma adjustOffset_nonneg (a len : Z) :
  0 <= a -> 0 <= len -> Buffer.adjustOffset a len = Z.min a len.
Proof.
  intros Ha Hl. unfold Buffer.adjustOffset.
  destruct (Z.ltb_spec a 0); [lia|].
  destruct (Z.ltb_spec a len); lia.
Qed.

(* for 0 <= start <= end the slice is the run [min start len, min end len) *)
Lemma slice_clamped (buf : Buffer.t) (a b : Z) :
  0 <= a <= b ->
  Buffer.slice buf a b
  = firstn (Z.to_nat (Z.min b (Buffer.byteLength buf) - Z.min a (Buffer.byteLength buf)))
           (skipn (Z.to_nat (Z.min a (Buffer.byteLength buf))) buf).
Proof.
  intros H. unfold Buffer.slice.
  pose proof (byteLength_nonneg buf) as Hl.
  rewrite !adjustOffset_nonneg by lia.
  destruct (Z.ltb_spec (Z.min a (Buffer.byteLength buf)) (Z.min b (Buffer.byteLength buf))).
  - reflexivity.
  - replace (Z.min b (Buffer.byteLength buf) - Z.min a (Buffer.byteLength buf)) with 0 by lia.
    reflexivity.
Qed.

Lemma slice_length_clamped (buf : Buffer.t) (a b : Z) :
  0 <= a <= b ->
  Buffer.byteLength (Buffer.slice buf a b)
  = Z.min b (Buffer.byteLength buf) - Z.min a (Buffer.byteLength buf).
Proof.
  intros H. rewrite slice_clamped by assumption.
  unfold Buffer.byteLength. rewrite length_firstn, length_skipn. lia.
Qed.

Lemma slice_in_range (buf : Buffer.t) (a b : Z) :
  0 <= a <= b -> b <= Buffer.byteLength buf ->
  Buffer.slice buf a b = firstn (Z.to_nat (b - a)) (skipn (Z.to_nat a) buf).
Proof.
  intros H Hb. rewrite slice_clamped by assumption.
  now rewrite !Z.min_l by lia.
Qed.

Lemma slice_length_in_range (buf : Buffer.t) (a b : Z) :
  0 <= a <= b -> b <= Buffer.byteLength buf ->
  Buffer.byteLength (Buffer.slice buf a b) = b - a.
Proof. intros H Hb. rewrite slice_length_clamped by assumption. lia. Qed.

Lemma slice_app_l (pre t : Buffer.t) (a b : Z) :
  0 <= a <= b -> b <= Buffer.byteLength pre ->
  Buffer.slice (pre ++ t) a b = Buffer.slice pre a b.
Proof.
  intros H Hb.
  rewrite !slice_in_range by (rewrite ?byteLength_app; pose proof (byteLength_nonneg t); lia).
  rewrite skipn_app, firstn_app, length_skipn.
  replace (Z.to_nat (b - a) - (length pre - Z.to_nat a))%nat with 0%nat
    by (unfold Buffer.byteLength in Hb; lia).
  now rewrite firstn_O, app_nil_r.
Qed.

Lemma readUInt8_app_l (pre t : Buffer.t) (i : Z) :
  i < Buffer.byteLength pre ->
  Buffer.readUInt8 (pre ++ t) i = Buffer.readUInt8 pre i.
Proof.
  intros Hi. pose proof (byteLength_nonneg t) as Ht.
  destruct (Z.leb_spec 0 i) as [H0|H0].
  - rewrite !readUInt8_in_range by (rewrite ?byteLength_app; lia).
    unfold Buffer.at_. rewrite app_nth1 by (unfold Buffer.byteLength in Hi; lia).
    reflexivity.
  - rewrite !readUInt8_out_of_range by lia. reflexivity.
Qed.

Lemma copy_app_l (pre t target : Buffer.t) (a b : Z) :
  0 <= a <= b -> b <= Buffer.byteLength pre ->
  Buffer.copy (pre ++ t) target 0 a b = Buffer.copy pre target 0 a b.
Proof.
  intros H Hb. unfold Buffer.copy. rewrite byteLength_app.
  pose proof (byteLength_nonneg t) as Ht.
  replace (Z.min (Z.min (b - a) (Buffer.byteLength target - 0))
                 (Buffer.byteLength pre + Buffer.byteLength t - a))
    with (Z.min (Z.min (b - a) (Buffer.byteLength target - 0)) (Buffer.byteLength pre - a))
    by lia.
  set (nb := Z.min (Z.min (b - a) (Buffer.byteLength target - 0)) (Buffer.byteLength pre - a)).
  destruct (Z.leb_spec nb 0); [reflexivity|].
  f_equal. f_equal.
  rewrite skipn_app, firstn_app, length_skipn.
  replace (Z.to_nat nb - (length pre - Z.to_nat a))%nat with 0%nat
    by (unfold Buffer.byteLength in *; lia).
  now rewrite firstn_O, app_nil_r.
Qed.

Lemma firstn_1_skipn {A : Type} (d : A) (l : list A) (n : nat) :
  (n < length l)%nat -> firstn 1 (skipn n l) = [nth n l d].
Proof.
  revert l. induction n as [|n IH]; intros [|x l] Hn; simpl in *; try lia.
  - reflexivity.
  - apply IH. lia.
Qed.

(* buf.readUIntBE(offset, 1) is buf.readUInt8(offset) *)
Lemma readUIntBE_1 (buf : Buffer.t) (off : Z) :
  Buffer.readUIntBE buf off 1 = Buffer.readUInt8 buf off.
Proof.
  unfold Buffer.readUIntBE, Buffer.readUInt8.
  destruct (Z.leb_spec 0 off) as [H0|H0]; simpl andb; [|reflexivity].
  destruct (Z.leb_spec (off + 1) (Buffer.byteLength buf));
    destruct (Z.ltb_spec off (Buffer.byteLength buf)); try lia; [|reflexivity].
  change (Z.to_nat 1) with 1%nat.
  rewrite (firstn_1_skipn x00) by (unfold Buffer.byteLength in *; lia).
  unfold Buffer.fromBytesBE, Buffer.at_. simpl. reflexivity.
Qed.

(** ** The header parser *)

Ltac bind_inv H :=
  let a := fresh "x" in
  let Ha := fresh "H" a in
  apply bind_Ok_inv in H; destruct H as (a & Ha & H); cbv beta zeta in H.

Ltac validated_inv H := apply validated_Ok_inv in H.

Lemma connectionIDLength_nonneg (c : Z) :
  0 <= c -> 0 <= HeaderParser.connectionIDLength c.
Proof. intros H. unfold HeaderParser.connectionIDLength. destruct (c =? 0); lia. Qed.

Lemma high_nibble_range (c : Z) : 0 <= c < 256 -> 0 <= Z.shiftr c 4 < 16.
Proof.
  intros H. rewrite Z.shiftr_div_pow2 by lia. change (2 ^ 4) with 16.
  split; [apply Z.div_pos; lia | apply Z.div_lt_upper_bound; lia].
Qed.

Lemma low_bits_range (c : Z) (n : Z) :
  0 <= n -> 0 <= Z.land c (Z.ones n) < 2 ^ n.
Proof. intros Hn. rewrite Z.land_ones by lia. apply Z.mod_pos_bound. lia. Qed.

Lemma low_nibble_range (c : Z) : 0 <= Z.land c 0xF < 16.
Proof. apply (low_bits_range c 4). lia. Qed.

Lemma selector_range (c : Z) : 0 <= Z.land c 0x3 < 4.
Proof. apply (low_bits_range c 2). lia. Qed.

Section HeaderParserProperties.
Context {W : WireTypes}.
Variable IsVersionNegotationFlag : Version -> bool.
Variable VLIE_decode : Buffer.t -> Z -> result VLIE.VLIEOffset.

Local Abbreviation parseLongHeader :=
  (HeaderParser.parseLongHeader IsVersionNegotationFlag VLIE_decode).
Local Abbreviation parseShortHeader := (HeaderParser.parseShortHeader (W := W)).
Local Abbreviation parseHeader :=
  (HeaderParser.parseHeader IsVersionNegotationFlag VLIE_decode).
Local Abbreviation parse_step :=
  (HeaderParser.parse_step IsVersionNegotationFlag VLIE_decode).
Local Abbreviation parse_while :=
  (HeaderParser.parse_while IsVersionNegotationFlag VLIE_decode).
Local Abbreviation parse_fuel :=
  (HeaderParser.parse_fuel IsVersionNegotationFlag VLIE_decode).
Local Abbreviation parse := (HeaderParser.parse IsVersionNegotationFlag VLIE_decode).
Local Abbreviation connectionIDLength := HeaderParser.connectionIDLength.
Local Abbreviation mkHeaderOffset := HeaderParser.mkHeaderOffset.
Local Abbreviation header := HeaderParser.header.
Local Abbreviation offset := HeaderParser.offset.

(* What a successful long-header parse has read, field by field. *)
Lemma parseLongHeader_Ok_inv (buf : Buffer.t) (start : Z) ho :
  parseLongHeader buf start = Ok ho ->
  exists first version conLengths dcid scid,
    Buffer.readUInt8 buf start = Ok first /\
    newVersion (Buffer.slice buf (start + 1) (start + 1 + 4)) = Some version /\
    Buffer.readUInt8 buf (start + 1 + 4) = Ok conLengths /\
    let dl := connectionIDLength (Z.shiftr conLengths 4) in
    let sl := connectionIDLength (Z.land conLengths 0xF) in
    let p := start + 1 + 4 + 1 in
    newConnectionID (Buffer.slice buf p (p + dl)) dl = Some dcid /\
    newConnectionID (Buffer.slice buf (p + dl) (p + dl + sl)) sl = Some scid /\
    ((IsVersionNegotationFlag version = true /\
      ho = mkHeaderOffset
             (LongH (LongHeader.mk W (first - 0x80) dcid scid None None version
                       (Some (Buffer.slice buf start (p + dl + sl)))))
             (p + dl + sl))
     \/
     (IsVersionNegotationFlag version = false /\
      exists vo pn,
        VLIE_decode buf (p + dl + sl) = Ok vo /\
        newPacketNumber (Buffer.slice buf (VLIE.offset vo) (VLIE.offset vo + 4)) = Some pn /\
        ho = mkHeaderOffset
               (LongH (LongHeader.mk W (first - 0x80) dcid scid (Some pn)
                         (Some (VLIE.value vo)) version
                         (Some (Buffer.slice buf start (VLIE.offset vo + 4)))))
               (VLIE.offset vo + 4))).
Proof.
  intros H. unfold HeaderParser.parseLongHeader in H.
  bind_inv H. bind_inv H. validated_inv Hx0. bind_inv H.
  bind_inv H. validated_inv Hx2. bind_inv H. validated_inv Hx3.
  bind_inv H.
  exists x, x0, x1, x2, x3.
  repeat (split; [assumption|]).
  destruct (IsVersionNegotationFlag x0) eqn:Evn; simpl negb in Hx4; cbv iota in Hx4.
  - left. split; [reflexivity|].
    injection Hx4 as <-. injection H as <-. reflexivity.
  - right. split; [reflexivity|].
    bind_inv Hx4. bind_inv Hx4. validated_inv Hx6.
    exists x5, x6. repeat (split; [assumption|]).
    injection Hx4 as <-. injection H as <-. reflexivity.
Qed.

Lemma getShortHeaderPacketNumber_eq (ty : Z) (buf : Buffer.t) (off : Z) :
  ty = 0 \/ ty = 1 \/ ty = 2 ->
  HeaderParser.getShortHeaderPacketNumber ty buf off
  = validated (newPacketNumber (Buffer.slice buf off (off + Z.shiftl 1 ty))).
Proof using Type. intros [->|[->| ->]]; reflexivity. Qed.

Lemma getShortHeaderPacketNumber_default (ty : Z) (buf : Buffer.t) (off : Z) :
  ty <> 0 -> ty <> 1 -> ty <> 2 ->
  HeaderParser.getShortHeaderPacketNumber (W := W) ty buf off = Err InvalidPacketNumberWidth.
Proof using Type.
  intros H0 H1 H2. unfold HeaderParser.getShortHeaderPacketNumber,
    ShortHeaderType.OneOctet, ShortHeaderType.TwoOctet, ShortHeaderType.FourOctet.
  destruct (Z.eqb_spec ty 0); [contradiction|].
  destruct (Z.eqb_spec ty 1); [contradiction|].
  destruct (Z.eqb_spec ty 2); [contradiction|].
  reflexivity.
Qed.

Lemma getShortHeaderPacketNumber_Ok_inv (ty : Z) (buf : Buffer.t) (off : Z) pn :
  HeaderParser.getShortHeaderPacketNumber ty buf off = Ok pn ->
  (ty = 0 \/ ty = 1 \/ ty = 2) /\
  newPacketNumber (Buffer.slice buf off (off + Z.shiftl 1 ty)) = Some pn.
Proof using Type.
  intros H.
  assert (Hty : ty = 0 \/ ty = 1 \/ ty = 2).
  { destruct (Z.eq_dec ty 0); [now left|].
    destruct (Z.eq_dec ty 1); [now right; left|].
    destruct (Z.eq_dec ty 2); [now right; right|].
    rewrite getShortHeaderPacketNumber_default in H by assumption. discriminate. }
  split; [assumption|].
  rewrite getShortHeaderPacketNumber_eq in H by assumption.
  now apply validated_Ok_inv.
Qed.

(* What a successful short-header parse has read, field by field. *)
Lemma parseShortHeader_Ok_inv (buf : Buffer.t) (start : Z) ho :
  parseShortHeader buf start = Ok ho ->
  exists first destLen dcid pn,
    Buffer.readUInt8 buf start = Ok first /\
    Buffer.readUInt8 buf (start + 1) = Ok destLen /\
    newConnectionID
      (Buffer.copy buf (Buffer.alloc destLen) 0 (start + 1) (start + 1 + destLen))
      destLen = Some dcid /\
    let ty := Z.land first 0x3 in
    let p := start + 1 + destLen in
    (ty = 0 \/ ty = 1 \/ ty = 2) /\
    newPacketNumber (Buffer.slice buf p (p + Z.shiftl 1 ty)) = Some pn /\
    ho = mkHeaderOffset
           (ShortH (ShortHeader.mk W ty dcid pn
                      (Z.land first 0x40 =? 0x40) (Z.land first 0x04 =? 0x04)
                      (Some (Buffer.slice buf start (p + Z.shiftl 1 ty)))))
           (p + Z.shiftl 1 ty).
Proof using Type.
  intros H. unfold HeaderParser.parseShortHeader in H.
  rewrite readUIntBE_1 in H.
  bind_inv H. bind_inv H. bind_inv H. validated_inv Hx1. bind_inv H.
  apply getShortHeaderPacketNumber_Ok_inv in Hx2. destruct Hx2 as [Hty Hpn].
  exists x, x0, x1, x2.
  repeat (split; [assumption|]).
  injection H as <-. reflexivity.
Qed.

(* The converse: a short header whose fields can all be read parses. *)
Lemma parseShortHeader_intro (buf : Buffer.t) (start first destLen : Z) dcid pn :
  Buffer.readUInt8 buf start = Ok first ->
  Buffer.readUInt8 buf (start + 1) = Ok destLen ->
  newConnectionID
    (Buffer.copy buf (Buffer.alloc destLen) 0 (start + 1) (start + 1 + destLen))
    destLen = Some dcid ->
  let ty := Z.land first 0x3 in
  let p := start + 1 + destLen in
  (ty = 0 \/ ty = 1 \/ ty = 2) ->
  newPacketNumber (Buffer.slice buf p (p + Z.shiftl 1 ty)) = Some pn ->
  parseShortHeader buf start
  = Ok (mkHeaderOffset
          (ShortH (ShortHeader.mk W ty dcid pn
                     (Z.land first 0x40 =? 0x40) (Z.land first 0x04 =? 0x04)
                     (Some (Buffer.slice buf start (p + Z.shiftl 1 ty)))))
          (p + Z.shiftl 1 ty)).
Proof using Type.
  intros Hf Hd Hc ty p Hty Hpn. unfold HeaderParser.parseShortHeader.
  rewrite readUIntBE_1, Hf. cbn [bind]. rewrite Hd. cbn [bind].
  rewrite Hc. cbn [bind validated].
  unfold HeaderParser.correctShortHeaderType.
  rewrite getShortHeaderPacketNumber_eq by assumption.
  fold ty. fold p. rewrite Hpn. reflexivity.
Qed.

(* The converse for long headers. *)
Lemma parseLongHeader_intro_vn (buf : Buffer.t) (start first conLengths : Z)
    version dcid scid (decoder : Buffer.t -> Z -> result VLIE.VLIEOffset) :
  Buffer.readUInt8 buf start = Ok first ->
  newVersion (Buffer.slice buf (start + 1) (start + 1 + 4)) = Some version ->
  Buffer.readUInt8 buf (start + 1 + 4) = Ok conLengths ->
  let dl := connectionIDLength (Z.shiftr conLengths 4) in
  let sl := connectionIDLength (Z.land conLengths 0xF) in
  let p := start + 1 + 4 + 1 in
  newConnectionID (Buffer.slice buf p (p + dl)) dl = Some dcid ->
  newConnectionID (Buffer.slice buf (p + dl) (p + dl + sl)) sl = Some scid ->
  IsVersionNegotationFlag version = true ->
  HeaderParser.parseLongHeader IsVersionNegotationFlag decoder buf start
  = Ok (mkHeaderOffset
          (LongH (LongHeader.mk W (first - 0x80) dcid scid None None version
                    (Some (Buffer.slice buf start (p + dl + sl)))))
          (p + dl + sl)).
Proof.
  intros Hf Hv Hc dl sl p Hd Hs Hvn. unfold HeaderParser.parseLongHeader.
  rewrite Hf. cbn [bind]. rewrite Hv. cbn [bind validated].
  rewrite Hc. cbn [bind]. fold dl. fold sl. fold p.
  rewrite Hd. cbn [bind validated]. rewrite Hs. cbn [bind validated].
  rewrite Hvn. reflexivity.
Qed.

Lemma parseLongHeader_intro (buf : Buffer.t) (start first conLengths : Z)
    version dcid scid vo pn :
  Buffer.readUInt8 buf start = Ok first ->
  newVersion (Buffer.slice buf (start + 1) (start + 1 + 4)) = Some version ->
  Buffer.readUInt8 buf (start + 1 + 4) = Ok conLengths ->
  let dl := connectionIDLength (Z.shiftr conLengths 4) in
  let sl := connectionIDLength (Z.land conLengths 0xF) in
  let p := start + 1 + 4 + 1 in
  newConnectionID (Buffer.slice buf p (p + dl)) dl = Some dcid ->
  newConnectionID (Buffer.slice buf (p + dl) (p + dl + sl)) sl = Some scid ->
  IsVersionNegotationFlag version = false ->
  VLIE_decode buf (p + dl + sl) = Ok vo ->
  newPacketNumber (Buffer.slice buf (VLIE.offset vo) (VLIE.offset vo + 4)) = Some pn ->
  parseLongHeader buf start
  = Ok (mkHeaderOffset
          (LongH (LongHeader.mk W (first - 0x80) dcid scid (Some pn)
                    (Some (VLIE.value vo)) version
                    (Some (Buffer.slice buf start (VLIE.offset vo + 4)))))
          (VLIE.offset vo + 4)).
Proof.
  intros Hf Hv Hc dl sl p Hd Hs Hvn Hvo Hpn. unfold HeaderParser.parseLongHeader.
  rewrite Hf. cbn [bind]. rewrite Hv. cbn [bind validated].
  rewrite Hc. cbn [bind]. fold dl. fold sl. fold p.
  rewrite Hd. cbn [bind validated]. rewrite Hs. cbn [bind validated].
  rewrite Hvn. cbn [negb]. rewrite Hvo. cbn [bind]. rewrite Hpn. reflexivity.
Qed.

(* parseHeader dispatches on the first byte's most significant bit *)
Lemma parseHeader_long (buf : Buffer.t) (start first : Z) :
  Buffer.readUInt8 buf start = Ok first ->
  Z.land first 0x80 = 0x80 ->
  parseHeader buf start = parseLongHeader buf start.
Proof.
  intros Hf Hb. unfold HeaderParser.parseHeader.
  rewrite readUIntBE_1, Hf. cbn [bind]. now rewrite Hb.
Qed.

Lemma parseHeader_short (buf : Buffer.t) (start first : Z) :
  Buffer.readUInt8 buf start = Ok first ->
  Z.land first 0x80 <> 0x80 ->
  parseHeader buf start = parseShortHeader buf start.
Proof.
  intros Hf Hb. unfold HeaderParser.parseHeader.
  rewrite readUIntBE_1, Hf. cbn [bind].
  destruct (Z.eqb_spec (Z.land first 0x80) 0x80); [contradiction | reflexivity].
Qed.

Lemma parseHeader_Ok_inv (buf : Buffer.t) (start : Z) ho :
  parseHeader buf start = Ok ho ->
  exists first,
    Buffer.readUInt8 buf start = Ok first /\
    ((Z.land first 0x80 = 0x80 /\ parseLongHeader buf start = Ok ho) \/
     (Z.land first 0x80 <> 0x80 /\ parseShortHeader buf start = Ok ho)).
Proof.
  intros H. unfold HeaderParser.parseHeader in H.
  rewrite readUIntBE_1 in H. bind_inv H. exists x. split; [assumption|].
  destruct (Z.eqb_spec (Z.land x 0x80) 0x80); [left | right]; now split.
Qed.

(** C7.  In a parsed long header the byte after the version holds the two
    connection-ID length classes: the high nibble is the destination's,
    the low nibble the source's; class 0 stands for length 0 and a class
    n > 0 for n + 3.  The destination ID is built from the next [dl] bytes,
    the source ID from the [sl] bytes after them, and the field that
    follows starts right after both. *)
Theorem long_header_connection_id_lengths (buf : Buffer.t) (start : Z) ho :
  parseLongHeader buf start = Ok ho ->
  exists conLengths lh dl sl,
    Buffer.readUInt8 buf (start + 1 + 4) = Ok conLengths /\
    header ho = LongH lh /\
    let destClass := conLengths / 16 in
    let srcClass := conLengths mod 16 in
    let p := start + 1 + 4 + 1 in
    Z.shiftr conLengths 4 = destClass /\ Z.land conLengths 0xF = srcClass /\
    (destClass = 0 -> dl = 0) /\ (0 < destClass -> dl = destClass + 3) /\
    (srcClass = 0 -> sl = 0) /\ (0 < srcClass -> sl = srcClass + 3) /\
    (dl = 0 \/ 4 <= dl <= 18) /\ (sl = 0 \/ 4 <= sl <= 18) /\
    newConnectionID (Buffer.slice buf p (p + dl)) dl
      = Some (LongHeader.destConnectionID lh) /\
    newConnectionID (Buffer.slice buf (p + dl) (p + dl + sl)) sl
      = Some (LongHeader.srcConnectionID lh) /\
    (p + dl + sl <= Buffer.byteLength buf ->
     Buffer.byteLength (Buffer.slice buf p (p + dl)) = dl /\
     Buffer.byteLength (Buffer.slice buf (p + dl) (p + dl + sl)) = sl) /\
    (LongHeader.payloadLength lh = None -> offset ho = p + dl + sl) /\
    (forall pl, LongHeader.payloadLength lh = Some pl ->
       exists vo, VLIE_decode buf (p + dl + sl) = Ok vo /\ VLIE.value vo = pl /\
                  offset ho = VLIE.offset vo + 4).
Proof.
  intros H. apply parseLongHeader_Ok_inv in H.
  destruct H as (first & version & c & dcid & scid & Hf & Hv & Hc & Hd & Hs & Hho).
  pose proof (readUInt8_Ok_inv _ _ _ Hf) as (Hstart & _ & _).
  pose proof (readUInt8_Ok_inv _ _ _ Hc) as (_ & _ & Hcr).
  set (dl := connectionIDLength (Z.shiftr c 4)) in *.
  set (sl := connectionIDLength (Z.land c 0xF)) in *.
  assert (Hhi : Z.shiftr c 4 = c / 16).
  { rewrite Z.shiftr_div_pow2 by lia. reflexivity. }
  assert (Hlo : Z.land c 0xF = c mod 16).
  { change 0xF with (Z.ones 4). rewrite Z.land_ones by lia. reflexivity. }
  assert (Hhr : 0 <= c / 16 < 16).
  { split; [apply Z.div_pos; lia | apply Z.div_lt_upper_bound; lia]. }
  assert (Hlr : 0 <= c mod 16 < 16) by (apply Z.mod_pos_bound; lia).
  assert (Hdl : dl = if c / 16 =? 0 then 0 else c / 16 + 3).
  { unfold dl, HeaderParser.connectionIDLength. rewrite Hhi.
    destruct (Z.eqb_spec (c / 16) 0); lia. }
  assert (Hsl : sl = if c mod 16 =? 0 then 0 else c mod 16 + 3).
  { unfold sl, HeaderParser.connectionIDLength. rewrite Hlo.
    destruct (Z.eqb_spec (c mod 16) 0); lia. }
  assert (Hshape : exists lh, header ho = LongH lh /\
            LongHeader.destConnectionID lh = dcid /\ LongHeader.srcConnectionID lh = scid /\
            (LongHeader.payloadLength lh = None -> offset ho = start + 1 + 4 + 1 + dl + sl) /\
            (forall pl, LongHeader.payloadLength lh = Some pl ->
               exists vo, VLIE_decode buf (start + 1 + 4 + 1 + dl + sl) = Ok vo /\
                          VLIE.value vo = pl /\ offset ho = VLIE.offset vo + 4)).
  { destruct Hho as [[_ ->]|[_ (vo & pn & Hvo & _ & ->)]]; eexists;
      (split; [reflexivity|]); simpl; repeat split; try congruence.
    intros pl [= <-]. exists vo. now repeat split. }
  destruct Hshape as (lh & Hlh & Hdc & Hsc & Hnone & Hsome).
  exists c, lh, dl, sl. cbv zeta.
  split; [assumption|]. split; [assumption|].
  split; [assumption|]. split; [assumption|].
  assert (Hdl0 : 0 <= dl) by (destruct (Z.eqb_spec (c / 16) 0); lia).
  assert (Hsl0 : 0 <= sl) by (destruct (Z.eqb_spec (c mod 16) 0); lia).
  assert (Hlens : start + 1 + 4 + 1 + dl + sl <= Buffer.byteLength buf ->
     Buffer.byteLength (Buffer.slice buf (start + 1 + 4 + 1) (start + 1 + 4 + 1 + dl)) = dl /\
     Buffer.byteLength
       (Buffer.slice buf (start + 1 + 4 + 1 + dl) (start + 1 + 4 + 1 + dl + sl)) = sl).
  { intros Hfit. split; rewrite slice_length_in_range; lia. }
  rewrite Hdc, Hsc.
  destruct (Z.eqb_spec (c / 16) 0); destruct (Z.eqb_spec (c mod 16) 0);
    repeat (split; [first [assumption | lia]|]); assumption.
Qed.

(** C4.  When the first byte has its most significant bit set and the
    version validator takes the 4-byte version for the negotiation
    sentinel, a successful parse has read neither a payload length nor a
    packet number: the result is the same with any VarInt decoder in place
    of the real one, both fields of the header are absent, and the offset
    is the one right after the source connection ID. *)
Theorem version_negotiation_shape (buf : Buffer.t) (start first : Z) version ho :
  Buffer.readUInt8 buf start = Ok first ->
  Z.land first 0x80 = 0x80 ->
  newVersion (Buffer.slice buf (start + 1) (start + 1 + 4)) = Some version ->
  IsVersionNegotationFlag version = true ->
  parseHeader buf start = Ok ho ->
  exists conLengths lh,
    Buffer.readUInt8 buf (start + 1 + 4) = Ok conLengths /\
    header ho = LongH lh /\
    LongHeader.payloadLength lh = None /\
    LongHeader.packetNumber lh = None /\
    offset ho = start + 1 + 4 + 1
                + connectionIDLength (Z.shiftr conLengths 4)
                + connectionIDLength (Z.land conLengths 0xF) /\
    forall decoder,
      HeaderParser.parseHeader IsVersionNegotationFlag decoder buf start = Ok ho.
Proof.
  intros Hf Hmsb Hv Hvn H.
  rewrite (parseHeader_long buf start first Hf Hmsb) in H.
  apply parseLongHeader_Ok_inv in H.
  destruct H as (first' & version' & c & dcid & scid & Hf' & Hv' & Hc & Hd & Hs & Hho).
  assert (first' = first) as -> by congruence.
  assert (version' = version) as -> by congruence.
  destruct Hho as [[_ Hho]|[Hvn' _]]; [|congruence].
  eexists c, _. split; [assumption|]. subst ho. cbn [header offset].
  split; [reflexivity|]. cbn [LongHeader.payloadLength LongHeader.packetNumber].
  repeat (split; [reflexivity|]).
  intros decoder. unfold HeaderParser.parseHeader.
  rewrite readUIntBE_1, Hf. cbn [bind]. rewrite Hmsb. cbn [Z.eqb Pos.eqb].
  now apply parseLongHeader_intro_vn.
Qed.

(** C8 (amended).  Take a buffer whose first byte and connection-ID
    length byte can be read, whose width selector (the low two bits of the
    first byte, whatever its other bits) is 0, 1 or 2, and whose connection
    ID and packet-number bytes the value types accept.  Then the short
    header parses; its type is the selector; its packet number is built
    from [buf.slice(p, p + w)] with [w] = 1, 2 or 4 and [p] right after the
    destination connection ID; and the returned offset is [p + w].  That
    slice holds the buffer bytes from [p] up to [p + w] or the buffer end:
    exactly [w] bytes when the buffer holds them, fewer when it ends
    before. *)
Theorem short_header_packet_number_width (buf : Buffer.t) (start first destLen : Z)
    dcid pn :
  Buffer.readUInt8 buf start = Ok first ->
  Buffer.readUInt8 buf (start + 1) = Ok destLen ->
  Z.land first 0x3 = 0 \/ Z.land first 0x3 = 1 \/ Z.land first 0x3 = 2 ->
  newConnectionID
    (Buffer.copy buf (Buffer.alloc destLen) 0 (start + 1) (start + 1 + destLen))
    destLen = Some dcid ->
  newPacketNumber
    (Buffer.slice buf (start + 1 + destLen) (start + 1 + destLen + 2 ^ Z.land first 0x3))
    = Some pn ->
  exists ho sh w,
    (Z.land first 0x3 = 0 -> w = 1) /\
    (Z.land first 0x3 = 1 -> w = 2) /\
    (Z.land first 0x3 = 2 -> w = 4) /\
    let p := start + 1 + destLen in
    parseShortHeader buf start = Ok ho /\
    header ho = ShortH sh /\
    ShortHeader.type sh = Z.land first 0x3 /\
    newPacketNumber (Buffer.slice buf p (p + w)) = Some (ShortHeader.packetNumber sh) /\
    ShortHeader.packetNumber sh = pn /\
    offset ho = p + w /\
    Buffer.byteLength (Buffer.slice buf p (p + w))
      = Z.min (p + w) (Buffer.byteLength buf) - Z.min p (Buffer.byteLength buf) /\
    (p + w <= Buffer.byteLength buf -> Buffer.byteLength (Buffer.slice buf p (p + w)) = w) /\
    (Buffer.byteLength buf < p + w -> Buffer.byteLength (Buffer.slice buf p (p + w)) < w).
Proof using Type.
  intros Hf Hd Hsel Hc Hpn.
  pose proof (readUInt8_Ok_inv _ _ _ Hf) as (Hstart & _ & _).
  pose proof (readUInt8_Ok_inv _ _ _ Hd) as (Hlen & _ & Hdr).
  assert (Hw : Z.shiftl 1 (Z.land first 0x3) = 2 ^ Z.land first 0x3)
    by apply Z.shiftl_1_l.
  assert (Hwr : (Z.land first 0x3 = 0 -> 2 ^ Z.land first 0x3 = 1) /\
                (Z.land first 0x3 = 1 -> 2 ^ Z.land first 0x3 = 2) /\
                (Z.land first 0x3 = 2 -> 2 ^ Z.land first 0x3 = 4) /\
                1 <= 2 ^ Z.land first 0x3 <= 4).
  { destruct Hsel as [E|[E|E]]; rewrite E; repeat split; intros; try reflexivity; lia. }
  destruct Hwr as (H0 & H1 & H2 & Hrange).
  rewrite <- Hw in Hpn.
  pose proof (parseShortHeader_intro buf start first destLen dcid pn Hf Hd Hc Hsel Hpn)
    as Hparse.
  cbv zeta in Hparse. rewrite Hw in Hparse, Hpn.
  eexists _, _, (2 ^ Z.land first 0x3). cbv zeta.
  split; [exact H0|]. split; [exact H1|]. split; [exact H2|].
  split; [exact Hparse|]. cbn [header offset ShortHeader.type ShortHeader.packetNumber].
  split; [reflexivity|]. split; [reflexivity|]. split; [exact Hpn|].
  split; [reflexivity|]. split; [reflexivity|].
  rewrite slice_length_clamped by lia.
  split; [reflexivity|]. split; intros; lia.
Qed.

(** C2 (amended).  The packet-number width of a short header is chosen by
    the low two bits of the first byte.  Selectors 0, 1 and 2 are the
    enumerated One-, Two- and Four-Octet widths; selector 3 is no member
    of the enumeration.  So the parse fails with
    [InvalidPacketNumberWidth] exactly when the first byte and the length
    byte can be read, the destination connection ID is accepted, and both
    low bits of the first byte are set. *)
Theorem invalid_packet_number_width_iff (buf : Buffer.t) (start : Z) :
  (forall first off,
     HeaderParser.getShortHeaderPacketNumber (W := W)
       (HeaderParser.correctShortHeaderType first) buf off
     = Err InvalidPacketNumberWidth
     <-> Z.land first 0x3 = 3) /\
  (parseShortHeader buf start = Err InvalidPacketNumberWidth
   <-> exists first destLen dcid,
         Buffer.readUInt8 buf start = Ok first /\
         Buffer.readUInt8 buf (start + 1) = Ok destLen /\
         newConnectionID
           (Buffer.copy buf (Buffer.alloc destLen) 0 (start + 1) (start + 1 + destLen))
           destLen = Some dcid /\
         Z.land first 0x3 = 3).
Proof.
  assert (Hget : forall first off,
     HeaderParser.getShortHeaderPacketNumber (W := W)
       (HeaderParser.correctShortHeaderType first) buf off
     = Err InvalidPacketNumberWidth
     <-> Z.land first 0x3 = 3).
  { intros first off. unfold HeaderParser.correctShortHeaderType.
    pose proof (selector_range first) as Hr. split.
    - intros H.
      destruct (Z.eq_dec (Z.land first 0x3) 3) as [|Hne]; [assumption|exfalso].
      rewrite getShortHeaderPacketNumber_eq in H by lia.
      destruct (newPacketNumber _); discriminate.
    - intros E. apply getShortHeaderPacketNumber_default; lia. }
  split; [exact Hget|].
  unfold HeaderParser.parseShortHeader. rewrite readUIntBE_1. split.
  - intros H.
    destruct (Buffer.readUInt8 buf start) as [first|e] eqn:Hf;
      [|cbn [bind] in H; unfold Buffer.readUInt8 in Hf;
        destruct (_ && _) in Hf; congruence].
    cbn [bind] in H.
    destruct (Buffer.readUInt8 buf (start + 1)) as [destLen|e] eqn:Hd;
      [|cbn [bind] in H; unfold Buffer.readUInt8 in Hd;
        destruct (_ && _) in Hd; congruence].
    cbn [bind] in H.
    destruct (newConnectionID _ destLen) as [dcid|] eqn:Hc;
      [|cbn [bind validated] in H; discriminate].
    cbn [bind validated] in H.
    destruct (HeaderParser.getShortHeaderPacketNumber _ buf _) as [pn|e] eqn:Hg;
      cbn [bind] in H; [discriminate|].
    injection H as ->.
    exists first, destLen, dcid. repeat (split; [reflexivity || assumption|]).
    apply (Hget first (start + 1 + destLen)). exact Hg.
  - intros (first & destLen & dcid & Hf & Hd & Hc & E).
    rewrite Hf. cbn [bind]. rewrite Hd. cbn [bind]. rewrite Hc. cbn [bind validated].
    apply (Hget first (start + 1 + destLen)) in E. now rewrite E.
Qed.

Lemma readUInt8_Err_inv (buf : Buffer.t) (off : Z) (e : error) :
  Buffer.readUInt8 buf off = Err e ->
  e = TruncatedInput /\ ~ (0 <= off < Buffer.byteLength buf).
Proof.
  intros H. destruct (Z.leb_spec 0 off); destruct (Z.ltb_spec off (Buffer.byteLength buf));
    try (rewrite readUInt8_out_of_range in H by lia; split; [congruence | lia]).
  rewrite readUInt8_in_range in H by lia. discriminate.
Qed.

Lemma validated_Err_inv {A : Type} (o : option A) (e : error) :
  validated o = Err e -> e = InvalidFieldLength /\ o = None.
Proof. destruct o; simpl; [discriminate | intros [= <-]; now split]. Qed.

(** C3 (amended).  A long-header parse fails with [TruncatedInput] when the
    first byte or the connection-ID-lengths byte lies outside the buffer,
    and a failure of the payload-length VarInt decoder is passed on
    unchanged.  Those are its only failures besides a value type refusing
    the bytes it is given ([InvalidFieldLength]): a version, connection ID
    or packet number that runs past the buffer end is sliced short, not
    refused by the parser. *)
Theorem long_header_failures (buf : Buffer.t) (start : Z) :
  (~ (0 <= start < Buffer.byteLength buf) ->
   parseLongHeader buf start = Err TruncatedInput) /\
  (0 <= start -> Buffer.byteLength buf <= start + 1 + 4 ->
   parseLongHeader buf start = Err TruncatedInput \/
   parseLongHeader buf start = Err InvalidFieldLength) /\
  (forall first version conLengths dcid scid e,
     Buffer.readUInt8 buf start = Ok first ->
     newVersion (Buffer.slice buf (start + 1) (start + 1 + 4)) = Some version ->
     Buffer.readUInt8 buf (start + 1 + 4) = Ok conLengths ->
     let dl := connectionIDLength (Z.shiftr conLengths 4) in
     let sl := connectionIDLength (Z.land conLengths 0xF) in
     let p := start + 1 + 4 + 1 in
     newConnectionID (Buffer.slice buf p (p + dl)) dl = Some dcid ->
     newConnectionID (Buffer.slice buf (p + dl) (p + dl + sl)) sl = Some scid ->
     IsVersionNegotationFlag version = false ->
     VLIE_decode buf (p + dl + sl) = Err e ->
     parseLongHeader buf start = Err e) /\
  (forall e,
     parseLongHeader buf start = Err e ->
     (e = TruncatedInput /\
      (~ (0 <= start < Buffer.byteLength buf) \/
       ~ (0 <= start + 1 + 4 < Buffer.byteLength buf))) \/
     e = InvalidFieldLength \/
     (exists off, VLIE_decode buf off = Err e)).
Proof.
  split; [|split; [|split]].
  - intros H. unfold HeaderParser.parseLongHeader.
    now rewrite readUInt8_out_of_range.
  - intros H0 Hlen. unfold HeaderParser.parseLongHeader.
    destruct (Buffer.readUInt8 buf start) as [first|e] eqn:Hf; cbn [bind].
    + destruct (newVersion _) as [version|]; cbn [bind validated]; [|now right].
      rewrite readUInt8_out_of_range by lia. now left.
    + apply readUInt8_Err_inv in Hf. destruct Hf as [-> _]. now left.
  - intros first version c dcid scid e Hf Hv Hc dl sl p Hd Hs Hvn He.
    unfold HeaderParser.parseLongHeader.
    rewrite Hf. cbn [bind]. rewrite Hv. cbn [bind validated].
    rewrite Hc. cbn [bind]. fold dl. fold sl. fold p.
    rewrite Hd. cbn [bind validated]. rewrite Hs. cbn [bind validated].
    rewrite Hvn. cbn [negb]. rewrite He. reflexivity.
  - intros e H. unfold HeaderParser.parseLongHeader in H.
    destruct (Buffer.readUInt8 buf start) as [first|e1] eqn:Hf; cbn [bind] in H;
      [|injection H as ->; apply readUInt8_Err_inv in Hf; left; tauto].
    destruct (newVersion _) as [version|]; cbn [bind validated] in H;
      [|right; left; congruence].
    destruct (Buffer.readUInt8 buf (start + 1 + 4)) as [c|e1] eqn:Hc; cbn [bind] in H;
      [|injection H as ->; apply readUInt8_Err_inv in Hc; left; tauto].
    destruct (newConnectionID _ _) as [dcid|]; cbn [bind validated] in H;
      [|right; left; congruence].
    destruct (newConnectionID _ _) as [scid|]; cbn [bind validated] in H;
      [|right; left; congruence].
    destruct (IsVersionNegotationFlag version); cbn [negb bind] in H; [discriminate|].
    destruct (VLIE_decode buf _) as [vo|e1] eqn:Hvo; cbn [bind] in H;
      [|injection H as ->; right; right; eexists; exact Hvo].
    destruct (newPacketNumber _) as [pn|]; cbn [bind validated] in H;
      [discriminate | right; left; congruence].
Qed.

Lemma readUInt8_app_swap (pre t t' : Buffer.t) (i : Z) :
  i < Buffer.byteLength pre ->
  Buffer.readUInt8 (pre ++ t) i = Buffer.readUInt8 (pre ++ t') i.
Proof. intros H. now rewrite !readUInt8_app_l. Qed.

Lemma slice_app_swap (pre t t' : Buffer.t) (a b : Z) :
  0 <= a <= b -> b <= Buffer.byteLength pre ->
  Buffer.slice (pre ++ t) a b = Buffer.slice (pre ++ t') a b.
Proof. intros H Hb. now rewrite !slice_app_l. Qed.

Lemma copy_app_swap (pre t t' target : Buffer.t) (a b : Z) :
  0 <= a <= b -> b <= Buffer.byteLength pre ->
  Buffer.copy (pre ++ t) target 0 a b = Buffer.copy (pre ++ t') target 0 a b.
Proof. intros H Hb. now rewrite !copy_app_l. Qed.

Lemma shiftl_1_selector (ty : Z) :
  ty = 0 \/ ty = 1 \/ ty = 2 -> 1 <= Z.shiftl 1 ty <= 4.
Proof. intros [->|[->| ->]]; cbn; lia. Qed.

(* A parsed short header depends on no byte at or after its offset. *)
Lemma parseShortHeader_app_swap (pre t t' : Buffer.t) (start : Z) ho :
  parseShortHeader (pre ++ t) start = Ok ho ->
  offset ho <= Buffer.byteLength pre ->
  parseShortHeader (pre ++ t') start = Ok ho.
Proof using Type.
  intros H Hfit. apply parseShortHeader_Ok_inv in H.
  destruct H as (first & destLen & dcid & pn & Hf & Hd & Hc & Hty & Hpn & ->).
  cbv zeta in *. cbn [offset] in Hfit.
  pose proof (readUInt8_Ok_inv _ _ _ Hf) as (Hstart & _ & _).
  pose proof (readUInt8_Ok_inv _ _ _ Hd) as (_ & _ & Hdr).
  pose proof (shiftl_1_selector _ Hty) as Hw.
  rewrite (slice_app_swap pre t t') by lia.
  rewrite (readUInt8_app_swap pre t t') in Hf, Hd by lia.
  rewrite (copy_app_swap pre t t') in Hc by lia.
  rewrite (slice_app_swap pre t t') in Hpn by lia.
  now apply parseShortHeader_intro.
Qed.

Section DecoderContract.
(* What the parser relies on from VLIE.decode: the value is an unsigned
   integer, the new offset is not before the old one, and a successful
   decode depends on no byte at or after its new offset. *)
Hypothesis decode_value_nonneg :
  forall buf off vo, VLIE_decode buf off = Ok vo -> 0 <= VLIE.value vo.
Hypothesis decode_advances :
  forall buf off vo, VLIE_decode buf off = Ok vo -> off <= VLIE.offset vo.
Hypothesis decode_local :
  forall pre t t' off vo,
    VLIE_decode (pre ++ t) off = Ok vo ->
    VLIE.offset vo <= Buffer.byteLength pre ->
    VLIE_decode (pre ++ t') off = Ok vo.

Lemma parseLongHeader_progress (buf : Buffer.t) (start : Z) ho :
  parseLongHeader buf start = Ok ho ->
  0 <= start < Buffer.byteLength buf /\ start + 6 <= offset ho /\
  (exists lh, header ho = LongH lh /\
     forall pl, LongHeader.payloadLength lh = Some pl -> 0 <= pl /\ start + 10 <= offset ho).
Proof.
  intros H. apply parseLongHeader_Ok_inv in H.
  destruct H as (first & version & c & dcid & scid & Hf & Hv & Hc & Hd & Hs & Hho).
  pose proof (readUInt8_Ok_inv _ _ _ Hf) as (Hstart & _ & _).
  pose proof (readUInt8_Ok_inv _ _ _ Hc) as (_ & _ & Hcr).
  pose proof (connectionIDLength_nonneg _ (proj1 (high_nibble_range c Hcr))) as Hdl.
  pose proof (connectionIDLength_nonneg _ (proj1 (low_nibble_range c))) as Hsl.
  split; [assumption|].
  destruct Hho as [[_ ->]|[_ (vo & pn & Hvo & _ & ->)]]; cbn [header offset].
  - split; [lia|]. eexists. split; [reflexivity|]. cbn. discriminate.
  - pose proof (decode_advances _ _ _ Hvo) as Hadv.
    pose proof (decode_value_nonneg _ _ _ Hvo) as Hval.
    split; [lia|]. eexists. split; [reflexivity|]. cbn. intros pl [= <-]. lia.
Qed.

Lemma parseShortHeader_progress (buf : Buffer.t) (start : Z) ho :
  parseShortHeader buf start = Ok ho ->
  0 <= start < Buffer.byteLength buf /\ start + 2 <= offset ho /\
  exists sh, header ho = ShortH sh.
Proof.
  intros H. apply parseShortHeader_Ok_inv in H.
  destruct H as (first & destLen & dcid & pn & Hf & Hd & Hc & Hty & Hpn & ->).
  pose proof (readUInt8_Ok_inv _ _ _ Hf) as (Hstart & _ & _).
  pose proof (readUInt8_Ok_inv _ _ _ Hd) as (_ & _ & Hdr).
  pose proof (shiftl_1_selector _ Hty) as Hw.
  cbn [header offset]. split; [assumption|]. split; [lia|]. eexists. reflexivity.
Qed.

Lemma parseHeader_progress (buf : Buffer.t) (start : Z) ho :
  parseHeader buf start = Ok ho ->
  0 <= start < Buffer.byteLength buf /\ start + 2 <= offset ho /\
  (forall lh pl, header ho = LongH lh -> LongHeader.payloadLength lh = Some pl ->
     0 <= pl /\ start + 10 <= offset ho).
Proof.
  intros H. apply parseHeader_Ok_inv in H.
  destruct H as (first & Hf & [[_ H]|[_ H]]).
  - apply parseLongHeader_progress in H. destruct H as (H1 & H2 & lh & Hlh & Hpl).
    split; [assumption|]. split; [lia|].
    intros lh' pl E. rewrite Hlh in E. injection E as <-. apply Hpl.
  - apply parseShortHeader_progress in H. destruct H as (H1 & H2 & sh & Hsh).
    split; [assumption|]. split; [assumption|].
    intros lh pl E. rewrite Hsh in E. discriminate.
Qed.

(* A parsed long header depends on no byte at or after its offset. *)
Lemma parseLongHeader_app_swap (pre t t' : Buffer.t) (start : Z) ho :
  parseLongHeader (pre ++ t) start = Ok ho ->
  offset ho <= Buffer.byteLength pre ->
  parseLongHeader (pre ++ t') start = Ok ho.
Proof.
  intros H Hfit. apply parseLongHeader_Ok_inv in H.
  destruct H as (first & version & c & dcid & scid & Hf & Hv & Hc & Hd & Hs & Hho).
  cbv zeta in *.
  pose proof (readUInt8_Ok_inv _ _ _ Hf) as (Hstart & _ & _).
  pose proof (readUInt8_Ok_inv _ _ _ Hc) as (_ & _ & Hcr).
  pose proof (connectionIDLength_nonneg _ (proj1 (high_nibble_range c Hcr))) as Hdl.
  pose proof (connectionIDLength_nonneg _ (proj1 (low_nibble_range c))) as Hsl.
  destruct Hho as [[Hvn ->]|[Hvn (vo & pn & Hvo & Hpn & ->)]]; cbn [offset] in Hfit.
  - rewrite (slice_app_swap pre t t') by lia.
    rewrite (readUInt8_app_swap pre t t') in Hf, Hc by lia.
    rewrite (slice_app_swap pre t t') in Hv, Hd, Hs by lia.
    now apply (parseLongHeader_intro_vn (pre ++ t') start first c version dcid scid).
  - pose proof (decode_advances _ _ _ Hvo) as Hadv.
    rewrite (slice_app_swap pre t t') by lia.
    rewrite (readUInt8_app_swap pre t t') in Hf, Hc by lia.
    rewrite (slice_app_swap pre t t') in Hv, Hd, Hs, Hpn by lia.
    apply (decode_local pre t t') in Hvo; [|lia].
    now apply (parseLongHeader_intro (pre ++ t') start first c version dcid scid vo pn).
Qed.

Lemma parseHeader_app_swap (pre t t' : Buffer.t) (start : Z) ho :
  parseHeader (pre ++ t) start = Ok ho ->
  offset ho <= Buffer.byteLength pre ->
  parseHeader (pre ++ t') start = Ok ho.
Proof.
  intros H Hfit.
  pose proof (parseHeader_progress _ _ _ H) as (Hstart & Hoff & _).
  apply parseHeader_Ok_inv in H. destruct H as (first & Hf & [[Hb H]|[Hb H]]);
    rewrite (readUInt8_app_swap pre t t') in Hf by lia.
  - rewrite (parseHeader_long _ _ _ Hf Hb). now apply (parseLongHeader_app_swap pre t t').
  - rewrite (parseHeader_short _ _ _ Hf Hb). now apply (parseShortHeader_app_swap pre t t').
Qed.

(** C6 (amended).  After a successful header parse, long or short, the
    offset is the position right after the last header field, and the raw
    span stored on the header is [buf.slice(start, offset)].  When the
    offset does not exceed the buffer length, that span is exactly the
    buffer bytes [start, offset); in general it is cut at the buffer end
    and holds the bytes [start, min(offset, length)). *)
Theorem parsed_span_within_buffer (buf : Buffer.t) (start : Z) ho :
  parseHeader buf start = Ok ho ->
  (* the offset lies right after the last field *)
  ((exists lh conLengths,
      header ho = LongH lh /\
      Buffer.readUInt8 buf (start + 1 + 4) = Ok conLengths /\
      let fields_end := start + 1 + 4 + 1
                        + connectionIDLength (Z.shiftr conLengths 4)
                        + connectionIDLength (Z.land conLengths 0xF) in
      ((LongHeader.payloadLength lh = None /\ offset ho = fields_end) \/
       (exists vo, VLIE_decode buf fields_end = Ok vo /\
                   LongHeader.payloadLength lh = Some (VLIE.value vo) /\
                   offset ho = VLIE.offset vo + 4)))
   \/
   (exists sh first destLen,
      header ho = ShortH sh /\
      Buffer.readUInt8 buf start = Ok first /\
      Buffer.readUInt8 buf (start + 1) = Ok destLen /\
      offset ho = start + 1 + destLen + 2 ^ Z.land first 0x3)) /\
  (* the stored span *)
  exists span,
    getParsedBuffer (header ho) = Some span /\
    span = Buffer.slice buf start (offset ho) /\
    Buffer.byteLength span = Z.min (offset ho) (Buffer.byteLength buf) - start /\
    (forall i, 0 <= i < Buffer.byteLength span ->
       Buffer.at_ span i = Buffer.at_ buf (start + i)) /\
    (offset ho <= Buffer.byteLength buf -> Buffer.byteLength span = offset ho - start).
Proof.
  intros H.
  pose proof (parseHeader_progress _ _ _ H) as (Hstart & Hoff & _).
  assert (Hspan : getParsedBuffer (header ho) = Some (Buffer.slice buf start (offset ho)) /\
    ((exists lh conLengths,
      header ho = LongH lh /\
      Buffer.readUInt8 buf (start + 1 + 4) = Ok conLengths /\
      let fields_end := start + 1 + 4 + 1
                        + connectionIDLength (Z.shiftr conLengths 4)
                        + connectionIDLength (Z.land conLengths 0xF) in
      ((LongHeader.payloadLength lh = None /\ offset ho = fields_end) \/
       (exists vo, VLIE_decode buf fields_end = Ok vo /\
                   LongHeader.payloadLength lh = Some (VLIE.value vo) /\
                   offset ho = VLIE.offset vo + 4)))
   \/
   (exists sh first destLen,
      header ho = ShortH sh /\
      Buffer.readUInt8 buf start = Ok first /\
      Buffer.readUInt8 buf (start + 1) = Ok destLen /\
      offset ho = start + 1 + destLen + 2 ^ Z.land first 0x3))).
  { apply parseHeader_Ok_inv in H. destruct H as (first & Hf & [[_ H]|[_ H]]).
    - apply parseLongHeader_Ok_inv in H.
      destruct H as (first' & version & c & dcid & scid & _ & _ & Hc & _ & _ & Hho).
      destruct Hho as [[_ ->]|[_ (vo & pn & Hvo & _ & ->)]]; cbn [header offset getParsedBuffer];
        (split; [reflexivity|]); left; eexists _, c;
        (split; [reflexivity|]); (split; [assumption|]); cbv zeta.
      + left. now split.
      + right. exists vo. now repeat split.
    - apply parseShortHeader_Ok_inv in H.
      destruct H as (first' & destLen & dcid & pn & Hf' & Hd & _ & Hty & _ & ->).
      cbn [header offset getParsedBuffer]. split; [reflexivity|].
      right. eexists _, first', destLen. repeat (split; [reflexivity || assumption|]).
      f_equal. cbv zeta in Hty. rewrite Z.shiftl_1_l. reflexivity. }
  destruct Hspan as [Hpb Hlayout]. split; [exact Hlayout|].
  exists (Buffer.slice buf start (offset ho)).
  split; [assumption|]. split; [reflexivity|].
  assert (Hlen : Buffer.byteLength (Buffer.slice buf start (offset ho))
                 = Z.min (offset ho) (Buffer.byteLength buf) - start).
  { rewrite slice_length_clamped by lia. lia. }
  split; [assumption|]. split; [|intros Hfit; lia].
  intros i Hi. rewrite Hlen in Hi.
  rewrite slice_clamped by lia.
  unfold Buffer.at_. f_equal.
  rewrite nth_firstn.
  destruct (Nat.ltb_spec (Z.to_nat i)
    (Z.to_nat (Z.min (offset ho) (Buffer.byteLength buf) - Z.min start (Buffer.byteLength buf))));
    [|lia].
  rewrite nth_skipn. f_equal. lia.
Qed.

(* One run of the loop body, started on a header parsed at [totalSize]. *)
Lemma parse_step_Continue_inv (buf : Buffer.t) hos ho (total : Z) hos' ho' total' :
  parse_step buf hos ho total = HeaderParser.Continue hos' ho' total' ->
  exists lh pl,
    header ho = LongH lh /\ LongHeader.payloadLength lh = Some pl /\
    total' = total + pl + (offset ho - total) /\
    total' < Buffer.byteLength buf /\
    parseHeader buf total' = Ok ho' /\
    hos' = hos ++ [ho'].
Proof.
  unfold HeaderParser.parse_step, LongHeader.getPayloadLength.
  destruct (header ho) as [lh|sh]; [|discriminate].
  destruct (LongHeader.payloadLength lh) as [pl|] eqn:Hpl; [|discriminate].
  destruct (Z.ltb_spec (total + pl + (offset ho - total)) (Buffer.byteLength buf)) as [Hlt|];
    [|discriminate].
  destruct (parseHeader buf _) as [ho''|e] eqn:Hp; [|discriminate].
  intros [= <- <- <-]. exists lh, pl. repeat split; assumption.
Qed.

Lemma parse_step_progress (buf : Buffer.t) hos ho (total : Z) hos' ho' total' :
  parseHeader buf total = Ok ho ->
  parse_step buf hos ho total = HeaderParser.Continue hos' ho' total' ->
  total < total' < Buffer.byteLength buf /\ parseHeader buf total' = Ok ho'.
Proof.
  intros Hp Hs. apply parse_step_Continue_inv in Hs.
  destruct Hs as (lh & pl & Hlh & Hpl & -> & Hlt & Hp' & _).
  pose proof (parseHeader_progress _ _ _ Hp) as (_ & _ & Hlong).
  specialize (Hlong lh pl Hlh Hpl). split; [lia | assumption].
Qed.

Lemma parse_while_fuel_mono (fuel : nat) : forall fuel' buf hos ho total r,
  parse_while fuel buf hos ho total = Some r ->
  (fuel <= fuel')%nat ->
  parse_while fuel' buf hos ho total = Some r.
Proof.
  induction fuel as [|fuel IH]; intros fuel' buf hos ho total r H Hle; [discriminate|].
  destruct fuel' as [|fuel']; [lia|].
  cbn [HeaderParser.parse_while] in *.
  destruct (parse_step buf hos ho total) as [hos1 ho1 total1|r1]; [|assumption].
  apply IH; [assumption | lia].
Qed.

Lemma parse_while_terminates (fuel : nat) : forall buf hos ho total,
  parseHeader buf total = Ok ho ->
  (Z.to_nat (Buffer.byteLength buf - total) < fuel)%nat ->
  exists r, parse_while fuel buf hos ho total = Some r.
Proof.
  induction fuel as [|fuel IH]; intros buf hos ho total Hp Hfuel; [lia|].
  cbn [HeaderParser.parse_while].
  destruct (parse_step buf hos ho total) as [hos1 ho1 total1|r1] eqn:Hs; [|eauto].
  destruct (parse_step_progress _ _ _ _ _ _ _ Hp Hs) as [Hlt Hp1].
  apply IH; [assumption | lia].
Qed.

(** C5.  Parsing a datagram terminates.  Every run of the loop body,
    started on a header that was parsed at the cumulative size, ends with a
    strictly larger cumulative size that is still below the buffer length
    (the loop stops otherwise), so a buffer of n bytes is answered within
    n + 1 tests of the loop condition: [parse] never runs out of fuel, and
    more fuel does not change its answer. *)
Theorem parse_terminates (buf : Buffer.t) :
  (forall hos ho total hos' ho' total',
     parseHeader buf total = Ok ho ->
     parse_step buf hos ho total = HeaderParser.Continue hos' ho' total' ->
     total < total' < Buffer.byteLength buf /\ parseHeader buf total' = Ok ho') /\
  exists r,
    parse buf = Some r /\
    forall fuel, (length buf < fuel)%nat -> parse_fuel fuel buf = Some r.
Proof.
  split; [intros; eapply parse_step_progress; eassumption|].
  unfold HeaderParser.parse, HeaderParser.parse_fuel.
  destruct (parseHeader buf 0) as [ho|e] eqn:Hp; [|eauto].
  destruct (parse_while_terminates (S (length buf)) buf [ho] ho 0 Hp) as [r Hr].
  { unfold Buffer.byteLength. lia. }
  exists r. split; [assumption|].
  intros fuel Hfuel. apply (parse_while_fuel_mono (S (length buf))); [assumption | lia].
Qed.

(* A datagram that starts with a long header of a defined payload length
   and has exactly one more header behind that payload. *)
Lemma parse_two_headers (buf : Buffer.t) ho1 lh1 pl1 ho2 (fuel : nat) :
  parseHeader buf 0 = Ok ho1 ->
  header ho1 = LongH lh1 ->
  LongHeader.payloadLength lh1 = Some pl1 ->
  parseHeader buf (offset ho1 + pl1) = Ok ho2 ->
  parse_step buf [ho1; ho2] ho2 (offset ho1 + pl1) = HeaderParser.Done (Ok [ho1; ho2]) ->
  (2 <= fuel)%nat ->
  parse_fuel fuel buf = Some (Ok [ho1; ho2]).
Proof.
  intros Hp1 Hlh1 Hpl1 Hp2 Hlast Hfuel.
  destruct fuel as [|[|fuel]]; try lia.
  pose proof (parseHeader_progress _ _ _ Hp2) as (Hstart2 & _ & _).
  unfold HeaderParser.parse_fuel. rewrite Hp1.
  cbn [HeaderParser.parse_while].
  unfold HeaderParser.parse_step at 1, LongHeader.getPayloadLength.
  rewrite Hlh1, Hpl1.
  replace (0 + pl1 + (offset ho1 - 0)) with (offset ho1 + pl1) by lia.
  destruct (Z.ltb_spec (offset ho1 + pl1) (Buffer.byteLength buf)); [|lia].
  rewrite Hp2. cbn [app]. now rewrite Hlast.
Qed.

Lemma parseHeader_span (buf : Buffer.t) (start : Z) ho :
  parseHeader buf start = Ok ho ->
  getParsedBuffer (header ho) = Some (Buffer.slice buf start (offset ho)).
Proof.
  intros H. apply parseHeader_Ok_inv in H. destruct H as (first & Hf & [[_ H]|[_ H]]).
  - apply parseLongHeader_Ok_inv in H.
    destruct H as (first' & version & c & dcid & scid & _ & _ & _ & _ & _ & Hho).
    destruct Hho as [[_ ->]|[_ (vo & pn & _ & _ & ->)]]; reflexivity.
  - apply parseShortHeader_Ok_inv in H.
    destruct H as (first' & destLen & dcid & pn & _ & _ & _ & _ & _ & ->). reflexivity.
Qed.

Lemma parseHeader_long_progress (buf : Buffer.t) (start : Z) ho lh :
  parseHeader buf start = Ok ho ->
  header ho = LongH lh ->
  start + 6 <= offset ho.
Proof.
  intros H Hlh. apply parseHeader_Ok_inv in H. destruct H as (first & Hf & [[_ H]|[_ H]]).
  - now apply parseLongHeader_progress in H.
  - apply parseShortHeader_progress in H. destruct H as (_ & _ & sh & Hsh). congruence.
Qed.

Lemma parse_of_two (buf : Buffer.t) ho1 lh1 pl1 ho2 :
  parseHeader buf 0 = Ok ho1 ->
  header ho1 = LongH lh1 ->
  LongHeader.payloadLength lh1 = Some pl1 ->
  parseHeader buf (offset ho1 + pl1) = Ok ho2 ->
  parse_step buf [ho1; ho2] ho2 (offset ho1 + pl1) = HeaderParser.Done (Ok [ho1; ho2]) ->
  parse buf = Some (Ok [ho1; ho2]).
Proof.
  intros Hp1 Hlh1 Hpl1 Hp2 Hlast.
  pose proof (parseHeader_progress _ _ _ Hp1) as (Hstart & _ & _).
  apply (parse_two_headers buf ho1 lh1 pl1 ho2); try assumption.
  unfold Buffer.byteLength in Hstart. lia.
Qed.

(** C1 (amended).  When the datagram starts with a long header of payload
    length [pl1], a second long header starts exactly where that payload
    ends, and the second packet is the last (it has no payload length, or
    its payload reaches the buffer end), [parse] returns exactly the two
    entries.  The second entry is the header parsed at the first entry's
    offset plus [pl1]: its raw span starts there, and its own offset, the
    start of the second payload, lies at least 6 bytes further. *)
Theorem coalesced_two_long_headers (buf : Buffer.t) ho1 lh1 pl1 ho2 lh2 :
  parseHeader buf 0 = Ok ho1 ->
  header ho1 = LongH lh1 ->
  LongHeader.payloadLength lh1 = Some pl1 ->
  parseHeader buf (offset ho1 + pl1) = Ok ho2 ->
  header ho2 = LongH lh2 ->
  (forall pl2, LongHeader.payloadLength lh2 = Some pl2 ->
     Buffer.byteLength buf <= offset ho2 + pl2) ->
  parse buf = Some (Ok [ho1; ho2]) /\
  getParsedBuffer (header ho2)
    = Some (Buffer.slice buf (offset ho1 + pl1) (offset ho2)) /\
  offset ho1 + pl1 + 6 <= offset ho2.
Proof.
  intros Hp1 Hlh1 Hpl1 Hp2 Hlh2 Hlast.
  split; [|split].
  - apply (parse_of_two buf ho1 lh1 pl1 ho2); try assumption.
    unfold HeaderParser.parse_step, LongHeader.getPayloadLength. rewrite Hlh2.
    destruct (LongHeader.payloadLength lh2) as [pl2|] eqn:Hpl2; [|reflexivity].
    specialize (Hlast pl2 eq_refl).
    destruct (Z.ltb_spec (offset ho1 + pl1 + pl2 + (offset ho2 - (offset ho1 + pl1)))
                (Buffer.byteLength buf)); [lia | reflexivity].
  - now apply parseHeader_span.
  - now apply (parseHeader_long_progress buf _ ho2 lh2).
Qed.


End DecoderContract.
End HeaderParserProperties.

(** ** The reference VarInt decoder keeps the contract *)

Lemma fromBytesBE_nonneg (bs : Buffer.t) : forall acc,
  0 <= acc -> 0 <= Buffer.fromBytesBE acc bs.
Proof.
  induction bs as [|b bs IH]; intros acc Hacc; [assumption|].
  apply IH. pose proof (u8_range b). lia.
Qed.

Lemma VLIE_decode_Ok_inv (buf : Buffer.t) (off : Z) vo :
  VLIE.decode buf off = Ok vo ->
  exists first,
    Buffer.readUInt8 buf off = Ok first /\
    let L := 2 ^ Z.shiftr first 6 in
    1 <= L /\ off + L <= Buffer.byteLength buf /\
    vo = VLIE.mkVLIEOffset
           (Buffer.fromBytesBE (Z.land first 0x3F)
              (firstn (Z.to_nat (L - 1)) (skipn (Z.to_nat (off + 1)) buf)))
           (off + L).
Proof.
  intros H. unfold VLIE.decode in H. bind_inv H. exists x. split; [assumption|].
  pose proof (readUInt8_Ok_inv _ _ _ Hx) as (_ & _ & Hr).
  assert (Hk : 0 <= Z.shiftr x 6) by (apply Z.shiftr_nonneg; lia).
  assert (HL : 1 <= 2 ^ Z.shiftr x 6).
  { pose proof (Z.pow_pos_nonneg 2 (Z.shiftr x 6)). lia. }
  cbv zeta.
  destruct (Z.leb_spec (off + 2 ^ Z.shiftr x 6) (Buffer.byteLength buf)); [|discriminate].
  injection H as <-. now repeat split.
Qed.

Lemma VLIE_decode_value_nonneg (buf : Buffer.t) (off : Z) vo :
  VLIE.decode buf off = Ok vo -> 0 <= VLIE.value vo.
Proof.
  intros H. apply VLIE_decode_Ok_inv in H. destruct H as (first & _ & _ & _ & ->).
  cbn [VLIE.value]. apply fromBytesBE_nonneg.
  apply (low_bits_range first 6). lia.
Qed.

Lemma VLIE_decode_advances (buf : Buffer.t) (off : Z) vo :
  VLIE.decode buf off = Ok vo -> off <= VLIE.offset vo.
Proof.
  intros H. apply VLIE_decode_Ok_inv in H. destruct H as (first & _ & HL & _ & ->).
  cbn [VLIE.offset]. lia.
Qed.

Lemma firstn_skipn_app_l {A : Type} (pre t : list A) (n m : nat) :
  (m + n <= length pre)%nat ->
  firstn n (skipn m (pre ++ t)) = firstn n (skipn m pre).
Proof.
  intros H. rewrite skipn_app, firstn_app, length_skipn.
  replace (n - (length pre - m))%nat with 0%nat by lia.
  now rewrite firstn_O, app_nil_r.
Qed.

Lemma VLIE_decode_local (pre t t' : Buffer.t) (off : Z) vo :
  VLIE.decode (pre ++ t) off = Ok vo ->
  VLIE.offset vo <= Buffer.byteLength pre ->
  VLIE.decode (pre ++ t') off = Ok vo.
Proof.
  intros H Hfit. apply VLIE_decode_Ok_inv in H.
  destruct H as (first & Hf & HL & _ & ->). cbn [VLIE.offset] in Hfit.
  pose proof (readUInt8_Ok_inv _ _ _ Hf) as (Hoff & _ & _).
  unfold VLIE.decode.
  rewrite (readUInt8_app_swap pre t' t), Hf by lia. cbn [bind].
  rewrite byteLength_app. pose proof (byteLength_nonneg t').
  destruct (Z.leb_spec (off + 2 ^ Z.shiftr first 6)
              (Buffer.byteLength pre + Buffer.byteLength t')); [|lia].
  rewrite !firstn_skipn_app_l by (unfold Buffer.byteLength in Hfit; lia).
  reflexivity.
Qed.

(** ** The theorems at work on the sample datagrams *)

Local Abbreviation header := HeaderParser.header.
Local Abbreviation offset := HeaderParser.offset.

Example parse_two_long_packets_offsets :
  option_map (fun r => match r with Ok hos => map offset hos | Err _ => [] end)
    (SpecWire.parse Samples.two_long_packets) = Some [11; 24].
Proof. vm_compute. reflexivity. Qed.

Example parse_long_then_short_offsets :
  option_map (fun r => match r with Ok hos => map offset hos | Err _ => [] end)
    (SpecWire.parse Samples.long_then_short) = Some [11; 20].
Proof. vm_compute. reflexivity. Qed.

Example parse_empty : SpecWire.parse [] = Some (Err TruncatedInput).
Proof. reflexivity. Qed.

Lemma VLIE_roundtrip_canonical_witness :
  0 <= 15293 < 2 ^ 62 /\
  exists b,
    VLIE.encode 15293 = Ok b /\
    VLIE.decode b 0 = Ok (VLIE.mkVLIEOffset 15293 (Buffer.byteLength b)) /\
    Buffer.byteLength b = VLIE.getEncodedByteLength 15293 /\
    (forall L, In L [1; 2; 4; 8] -> 15293 < 2 ^ (8 * L - 2) -> Buffer.byteLength b <= L).
Proof. split; [lia | apply VLIE_roundtrip_canonical; lia]. Defined.

(* C1 as stated fails on two back-to-back long packets: the second
   entry's offset is 24, the start of the second payload, while the first
   entry's offset plus its payload length is 13, where the second header
   starts. *)
Lemma two_long_packets_second_offset :
  exists ho1 ho2 lh1,
    SpecWire.parse Samples.two_long_packets = Some (Ok [ho1; ho2]) /\
    header ho1 = LongH lh1 /\
    LongHeader.payloadLength lh1 = Some 2 /\
    SpecWire.parseHeader Samples.two_long_packets (offset ho1 + 2) = Ok ho2 /\
    Buffer.byteLength Samples.two_long_packets = 25 /\
    offset ho1 = 11 /\ offset ho2 = 24 /\
    offset ho2 <> offset ho1 + 2.
Proof.
  do 3 eexists. split; [vm_compute; reflexivity|].
  cbn [header offset]. split; [reflexivity|]. cbn [LongHeader.payloadLength].
  split; [reflexivity|]. split; [vm_compute; reflexivity|].
  repeat (split; [reflexivity|]). discriminate.
Qed.

Lemma coalesced_two_long_headers_witness :
  exists ho1 ho2,
    SpecWire.parseHeader Samples.two_long_packets 0 = Ok ho1 /\
    SpecWire.parseHeader Samples.two_long_packets (offset ho1 + 2) = Ok ho2 /\
    SpecWire.parse Samples.two_long_packets = Some (Ok [ho1; ho2]) /\
    getParsedBuffer (header ho2)
      = Some (Buffer.slice Samples.two_long_packets (offset ho1 + 2) (offset ho2)) /\
    offset ho1 + 2 + 6 <= offset ho2.
Proof.
  do 2 eexists. split; [vm_compute; reflexivity|]. split; [vm_compute; reflexivity|].
  eapply (@coalesced_two_long_headers SpecWire.wire SpecWire.IsVersionNegotationFlag
            VLIE.decode VLIE_decode_value_nonneg VLIE_decode_advances
            Samples.two_long_packets).
  - vm_compute; reflexivity.
  - reflexivity.
  - reflexivity.
  - vm_compute; reflexivity.
  - reflexivity.
  - intros pl2 H. injection H as <-. vm_compute. discriminate.
Defined.

(* C2 as stated fails: a first byte with both low bits set reaches the
   failure branch. *)
Lemma short_selector_3_fails :
  SpecWire.parseHeader Samples.short_selector_3 0 = Err InvalidPacketNumberWidth /\
  Buffer.readUInt8 Samples.short_selector_3 0 = Ok 3 /\
  HeaderParser.correctShortHeaderType 3 = 3.
Proof. repeat split; vm_compute; reflexivity. Qed.

(* C3 as stated fails: the buffer ends after the first of the four
   packet-number bytes, and the long header still parses. *)
Lemma long_cut_in_packet_number_parses :
  exists ho lh,
    SpecWire.parseLongHeader Samples.long_cut_in_packet_number 0 = Ok ho /\
    header ho = LongH lh /\
    LongHeader.payloadLength lh = Some 5 /\
    LongHeader.packetNumber lh = Some [xab] /\
    Buffer.byteLength Samples.long_cut_in_packet_number = 8 /\
    offset ho = 11.
Proof.
  do 2 eexists. split; [vm_compute; reflexivity|].
  cbn [header offset]. split; [reflexivity|]. repeat split.
Qed.

Lemma version_negotiation_shape_witness :
  exists ho,
    SpecWire.parseHeader Samples.version_negotiation 0 = Ok ho /\
    exists conLengths lh,
      Buffer.readUInt8 Samples.version_negotiation (0 + 1 + 4) = Ok conLengths /\
      header ho = LongH lh /\
      LongHeader.payloadLength lh = None /\
      LongHeader.packetNumber lh = None /\
      offset ho = 0 + 1 + 4 + 1
                  + HeaderParser.connectionIDLength (Z.shiftr conLengths 4)
                  + HeaderParser.connectionIDLength (Z.land conLengths 0xF) /\
      forall decoder,
        HeaderParser.parseHeader (W := SpecWire.wire)
          SpecWire.IsVersionNegotationFlag decoder Samples.version_negotiation 0 = Ok ho.
Proof.
  eexists. split; [vm_compute; reflexivity|].
  apply (@version_negotiation_shape SpecWire.wire SpecWire.IsVersionNegotationFlag
           VLIE.decode Samples.version_negotiation 0 255 [x00; x00; x00; x00]);
    vm_compute; reflexivity.
Defined.

Lemma long_header_connection_id_lengths_witness :
  exists ho conLengths lh dl sl,
    SpecWire.parseLongHeader Samples.version_negotiation 0 = Ok ho /\
    Buffer.readUInt8 Samples.version_negotiation (0 + 1 + 4) = Ok conLengths /\
    header ho = LongH lh /\
    conLengths = 0x50 /\ dl = 8 /\ sl = 0 /\
    newConnectionID (Buffer.slice Samples.version_negotiation 6 14) 8
      = Some (LongHeader.destConnectionID lh) /\
    offset ho = 14.
Proof.
  eexists.
  destruct (@long_header_connection_id_lengths SpecWire.wire
              SpecWire.IsVersionNegotationFlag VLIE.decode
              Samples.version_negotiation 0 _ eq_refl)
    as (c & lh & dl & sl & Hc & Hlh & _ & _ & _ & Hdl & Hsl & _ & _ & _ & Hd & _ & _ & Hoff & _).
  assert (Ec : c = 0x50) by (vm_compute in Hc; congruence).
  subst c.
  specialize (Hdl eq_refl). specialize (Hsl eq_refl).
  change (dl = 8) in Hdl. change (sl = 0) in Hsl. subst dl sl.
  exists 0x50, lh, 8, 0.
  split; [reflexivity|]. split; [assumption|]. split; [exact Hlh|].
  repeat (split; [reflexivity|]). split; [exact Hd|].
  injection Hlh as <-. reflexivity.
Defined.

Lemma short_header_packet_number_width_witness :
  exists ho sh w,
    (Z.land 0x46 0x3 = 0 -> w = 1) /\
    (Z.land 0x46 0x3 = 1 -> w = 2) /\
    (Z.land 0x46 0x3 = 2 -> w = 4) /\
    let p := 0 + 1 + 4 in
    SpecWire.parseShortHeader Samples.short_with_flags 0 = Ok ho /\
    header ho = ShortH sh /\
    ShortHeader.type sh = Z.land 0x46 0x3 /\
    newPacketNumber (Buffer.slice Samples.short_with_flags p (p + w))
      = Some (ShortHeader.packetNumber sh) /\
    ShortHeader.packetNumber sh = [x01; x02; x03; x04] /\
    offset ho = p + w /\
    Buffer.byteLength (Buffer.slice Samples.short_with_flags p (p + w))
      = Z.min (p + w) (Buffer.byteLength Samples.short_with_flags)
        - Z.min p (Buffer.byteLength Samples.short_with_flags) /\
    (p + w <= Buffer.byteLength Samples.short_with_flags ->
     Buffer.byteLength (Buffer.slice Samples.short_with_flags p (p + w)) = w) /\
    (Buffer.byteLength Samples.short_with_flags < p + w ->
     Buffer.byteLength (Buffer.slice Samples.short_with_flags p (p + w)) < w).
Proof.
  exact (@short_header_packet_number_width SpecWire.wire
           Samples.short_with_flags 0 0x46 4
           (SpecWire.mkConnectionID [x04; xa1; xa2; xa3] 4) [x01; x02; x03; x04]
           eq_refl eq_refl (or_intror (or_intror eq_refl)) eq_refl eq_refl).
Defined.

(* C8 as stated fails: the first byte 0x02 has width selector 2, the
   buffer ends after two of the four packet-number bytes, the short header
   still parses, and its packet number has those 2 bytes, not 4. *)
Lemma short_selector_2_reads_two_bytes :
  exists ho sh,
    SpecWire.parseShortHeader Samples.short_cut_in_packet_number 0 = Ok ho /\
    header ho = ShortH sh /\
    Buffer.readUInt8 Samples.short_cut_in_packet_number 0 = Ok 2 /\
    Z.land 2 0x3 = 2 /\
    ShortHeader.packetNumber sh = [x11; x22] /\
    Buffer.byteLength (ShortHeader.packetNumber sh) = 2 /\
    offset ho = 9 /\
    Buffer.byteLength Samples.short_cut_in_packet_number = 7.
Proof.
  do 2 eexists. split; [vm_compute; reflexivity|].
  cbn [header offset ShortHeader.packetNumber]. repeat split.
Qed.

(* C6 as stated fails: the short header parses although its packet
   number is cut off; the offset 9 lies beyond the 7 bytes of the buffer,
   where no payload byte is, and the stored span has 7 bytes, not 9. *)
Lemma short_cut_in_packet_number_span :
  exists ho span,
    SpecWire.parseHeader Samples.short_cut_in_packet_number 0 = Ok ho /\
    getParsedBuffer (header ho) = Some span /\
    offset ho = 9 /\
    Buffer.byteLength Samples.short_cut_in_packet_number = 7 /\
    Buffer.byteLength span = 7.
Proof.
  do 2 eexists. split; [vm_compute; reflexivity|].
  cbn [header offset getParsedBuffer ShortHeader.parsedBuffer].
  repeat split.
Qed.

Lemma parsed_span_within_buffer_witness :
  exists ho span,
    SpecWire.parseHeader Samples.long_then_short 13 = Ok ho /\
    getParsedBuffer (header ho) = Some span /\
    span = Samples.short_header /\
    offset ho = 20 /\
    Buffer.byteLength span = offset ho - 13.
Proof.
  eexists.
  destruct (@parsed_span_within_buffer SpecWire.wire SpecWire.IsVersionNegotationFlag
              VLIE.decode VLIE_decode_value_nonneg VLIE_decode_advances
              Samples.long_then_short 13 _ eq_refl)
    as (_ & span & Hspan & Heq & _ & _ & Hlen).
  exists span. split; [reflexivity|]. split; [exact Hspan|].
  split; [rewrite Heq; vm_compute; reflexivity|].
  split; [reflexivity|]. apply Hlen. vm_compute. discriminate.
Defined.

Lemma parse_terminates_witness :
  exists r,
    SpecWire.parse Samples.two_long_packets = Some r /\
    forall fuel, (length Samples.two_long_packets < fuel)%nat ->
      HeaderParser.parse_fuel (W := SpecWire.wire) SpecWire.IsVersionNegotationFlag
        VLIE.decode fuel Samples.two_long_packets = Some r.
Proof.
  exact (proj2 (@parse_terminates SpecWire.wire SpecWire.IsVersionNegotationFlag
                  VLIE.decode VLIE_decode_value_nonneg VLIE_decode_advances
                  Samples.two_long_packets)).
Defined.


(** * Further properties of the header parser *)

Section DatagramProperties.
Context {W : WireTypes}.
Variable IsVersionNegotationFlag : Version -> bool.
Variable VLIE_decode : Buffer.t -> Z -> result VLIE.VLIEOffset.

Local Abbreviation parseHeader :=
  (HeaderParser.parseHeader IsVersionNegotationFlag VLIE_decode).
Local Abbreviation parseLongHeader :=
  (HeaderParser.parseLongHeader IsVersionNegotationFlag VLIE_decode).
Local Abbreviation parseShortHeader := (HeaderParser.parseShortHeader (W := W)).
Local Abbreviation parse_step :=
  (HeaderParser.parse_step IsVersionNegotationFlag VLIE_decode).
Local Abbreviation parse_while :=
  (HeaderParser.parse_while IsVersionNegotationFlag VLIE_decode).
Local Abbreviation parse_fuel :=
  (HeaderParser.parse_fuel IsVersionNegotationFlag VLIE_decode).
Local Abbreviation parse := (HeaderParser.parse IsVersionNegotationFlag VLIE_decode).
Local Abbreviation packets := (Datagram.packets IsVersionNegotationFlag VLIE_decode).
Local Abbreviation terminal := Datagram.terminal.

Lemma parse_step_Done_inv (buf : Buffer.t) hos ho (total : Z) r :
  parse_step buf hos ho total = HeaderParser.Done r ->
  (r = Ok hos /\ terminal buf ho) \/
  (exists lh pl e,
     header ho = LongH lh /\ LongHeader.payloadLength lh = Some pl /\
     offset ho + pl < Buffer.byteLength buf /\
     parseHeader buf (offset ho + pl) = Err e /\ r = Err e).
Proof using Type.
  unfold HeaderParser.parse_step, LongHeader.getPayloadLength, Datagram.terminal.
  destruct (header ho) as [lh|sh]; [|intros [= <-]; now left].
  destruct (LongHeader.payloadLength lh) as [pl|] eqn:Hpl; [|intros [= <-]; now left].
  replace (total + pl + (offset ho - total)) with (offset ho + pl) by lia.
  destruct (Z.ltb_spec (offset ho + pl) (Buffer.byteLength buf)) as [Hlt|Hge];
    [|intros [= <-]; left; split; [reflexivity | lia]].
  destruct (parseHeader buf (offset ho + pl)) as [ho'|e] eqn:Hp; [discriminate|].
  intros [= <-]. right. exists lh, pl, e. now repeat split.
Qed.

Lemma parse_step_Continue_next (buf : Buffer.t) hos ho (total : Z) hos' ho' total' :
  parse_step buf hos ho total = HeaderParser.Continue hos' ho' total' ->
  exists lh pl,
    header ho = LongH lh /\ LongHeader.payloadLength lh = Some pl /\
    total' = offset ho + pl /\
    total' < Buffer.byteLength buf /\
    parseHeader buf total' = Ok ho' /\
    hos' = hos ++ [ho'].
Proof using Type.
  intros H. apply parse_step_Continue_inv in H.
  destruct H as (lh & pl & Hlh & Hpl & Ht & Hlt & Hp & Hhos).
  exists lh, pl. replace (offset ho + pl) with total' by lia. now repeat split.
Qed.

(* the loop, started on the header [ho] parsed at [start] with the entries
   [pre ++ [ho]] collected so far, adds the packets that follow [ho] *)
Lemma parse_while_packets (fuel : nat) : forall buf pre ho start total res,
  parseHeader buf start = Ok ho ->
  parse_while fuel buf (pre ++ [ho]) ho total = Some (Ok res) ->
  exists tail, res = pre ++ tail /\ packets buf start tail.
Proof using Type.
  induction fuel as [|fuel IH]; intros buf pre ho start total res Hp H; [discriminate|].
  cbn [HeaderParser.parse_while] in H.
  destruct (parse_step buf (pre ++ [ho]) ho total) as [hos1 ho1 total1|r1] eqn:Hs.
  - apply parse_step_Continue_next in Hs.
    destruct Hs as (lh & pl & Hlh & Hpl & -> & Hlt & Hp1 & ->).
    destruct (IH buf (pre ++ [ho]) ho1 (offset ho + pl) (offset ho + pl) res Hp1 H)
      as (tail & -> & Htail).
    exists (ho :: tail). split; [now rewrite <- app_assoc|].
    now apply (Datagram.packets_next _ _ buf start ho lh pl).
  - injection H as ->. apply parse_step_Done_inv in Hs.
    destruct Hs as [[[= ->] Hterm]|(lh & pl & e & _ & _ & _ & _ & [=])].
    exists [ho]. split; [reflexivity|]. now apply Datagram.packets_last.
Qed.

(* conversely, enough fuel makes the loop return them *)
Lemma packets_parse_while (buf : Buffer.t) (start : Z) tail :
  packets buf start tail ->
  forall pre total, exists ho rest fuel,
    tail = ho :: rest /\
    parse_while fuel buf (pre ++ [ho]) ho total = Some (Ok (pre ++ tail)).
Proof using Type.
  induction 1 as [start ho Hp Hterm|start ho lh pl rest Hp Hlh Hpl Hlt Hrest IH];
    intros pre total.
  - exists ho, [], 1%nat. split; [reflexivity|].
    cbn [HeaderParser.parse_while].
    unfold HeaderParser.parse_step, LongHeader.getPayloadLength.
    unfold Datagram.terminal in Hterm.
    destruct (header ho) as [lh|sh]; [|reflexivity].
    destruct (LongHeader.payloadLength lh) as [pl|]; [|reflexivity].
    destruct (Z.ltb_spec (total + pl + (offset ho - total)) (Buffer.byteLength buf));
      [lia | reflexivity].
  - destruct (IH (pre ++ [ho]) (total + pl + (offset ho - total)))
      as (ho' & rest' & fuel & -> & Hrun).
    exists ho, (ho' :: rest'), (S fuel). split; [reflexivity|].
    cbn [HeaderParser.parse_while].
    unfold HeaderParser.parse_step, LongHeader.getPayloadLength.
    rewrite Hlh, Hpl.
    destruct (Z.ltb_spec (total + pl + (offset ho - total)) (Buffer.byteLength buf));
      [|lia].
    replace (total + pl + (offset ho - total)) with (offset ho + pl) in * by lia.
    replace (pre ++ ho :: ho' :: rest') with ((pre ++ [ho]) ++ ho' :: rest')
      by (now rewrite <- app_assoc).
    inversion Hrest as [s h Hp' _ Es Eh|s h lh' pl' r' Hp' _ _ _ _ Es Eh]; subst;
      rewrite Hp'; exact Hrun.
Qed.

Lemma parse_result_is_packet_chain_aux (buf : Buffer.t) hos :
  parse buf = Some (Ok hos) ->
  packets buf 0 hos.
Proof using Type.
  unfold HeaderParser.parse, HeaderParser.parse_fuel.
  destruct (parseHeader buf 0) as [ho|e] eqn:Hp; [|discriminate].
  intros H.
  destruct (parse_while_packets _ buf [] ho 0 0 hos Hp H) as (tail & -> & Htail).
  exact Htail.
Qed.

(** X1.  Whatever [parse] returns is the chain of packets of the datagram:
    the list is not empty, its first entry is the header parsed at offset
    0, every entry but the last is a long header with a payload length
    that ends inside the buffer, each next entry is the header parsed
    where the payload of the one before ends, and the last entry is a
    short header, a long header without payload length, or a long header
    whose payload reaches the buffer end. *)
Theorem parse_result_is_packet_chain (buf : Buffer.t) hos :
  parse buf = Some (Ok hos) ->
  packets buf 0 hos.
Proof using Type. apply parse_result_is_packet_chain_aux. Qed.

Lemma packets_nonempty (buf : Buffer.t) (start : Z) : ~ packets buf start [].
Proof using Type. intros H. inversion H. Qed.

(** X2.  [parse] returns exactly one entry if and only if the header at
    offset 0 parses and is the last one the loop looks at: a short header,
    a long header without payload length (version negotiation), or a long
    header whose payload length reaches or exceeds what is left of the
    buffer.  So a payload length larger than the datagram is accepted
    without an error, and nothing behind a short or version-negotiation
    header is ever parsed. *)
Theorem parse_single_entry_iff (buf : Buffer.t) ho :
  parse buf = Some (Ok [ho]) <->
  parseHeader buf 0 = Ok ho /\
  match header ho with
  | ShortH _ => True
  | LongH lh =>
    match LongHeader.payloadLength lh with
    | None => True
    | Some pl => Buffer.byteLength buf <= offset ho + pl
    end
  end.
Proof using Type.
  split.
  - intros H. apply parse_result_is_packet_chain_aux in H.
    inversion H as [s h Hp Hterm|s h lh pl rest Hp _ _ _ Hrest]; subst.
    + now split.
    + now apply packets_nonempty in Hrest.
  - intros [Hp Hterm]. unfold HeaderParser.parse, HeaderParser.parse_fuel.
    rewrite Hp. cbn [HeaderParser.parse_while].
    unfold HeaderParser.parse_step, LongHeader.getPayloadLength.
    destruct (header ho) as [lh|sh]; [|reflexivity].
    destruct (LongHeader.payloadLength lh) as [pl|]; [|reflexivity].
    destruct (Z.ltb_spec (0 + pl + (offset ho - 0)) (Buffer.byteLength buf));
      [lia | reflexivity].
Qed.

(** X3.  A coalesced packet that does not parse makes the whole datagram
    fail: when the first header is a long header whose payload ends inside
    the buffer and the header parse at that position fails, [parse] fails
    with the same error and the first header is not returned. *)
Theorem parse_fails_on_bad_second_packet (buf : Buffer.t) ho1 lh1 pl1 e :
  parseHeader buf 0 = Ok ho1 ->
  header ho1 = LongH lh1 ->
  LongHeader.payloadLength lh1 = Some pl1 ->
  offset ho1 + pl1 < Buffer.byteLength buf ->
  parseHeader buf (offset ho1 + pl1) = Err e ->
  parse buf = Some (Err e).
Proof using Type.
  intros Hp Hlh Hpl Hlt He. unfold HeaderParser.parse, HeaderParser.parse_fuel.
  rewrite Hp. cbn [HeaderParser.parse_while].
  unfold HeaderParser.parse_step, LongHeader.getPayloadLength. rewrite Hlh, Hpl.
  replace (0 + pl1 + (offset ho1 - 0)) with (offset ho1 + pl1) by lia.
  destruct (Z.ltb_spec (offset ho1 + pl1) (Buffer.byteLength buf)); [|lia].
  now rewrite He.
Qed.

(* a boolean fact about bytes, checked on all 256 of them *)
Lemma byte_range_forall (P : Z -> bool) :
  forallb P (map Z.of_nat (seq 0 256)) = true ->
  forall x, 0 <= x < 256 -> P x = true.
Proof using Type.
  intros H x Hx. rewrite forallb_forall in H. apply H.
  replace x with (Z.of_nat (Z.to_nat x)) by lia.
  apply in_map, in_seq. lia.
Qed.

Lemma msb_set_iff (x : Z) : 0 <= x < 256 -> (Z.land x 0x80 = 0x80 <-> 128 <= x).
Proof using Type.
  intros Hx.
  pose proof (byte_range_forall
    (fun x => Bool.eqb (Z.land x 0x80 =? 0x80) (128 <=? x)) eq_refl x Hx) as H.
  cbv beta in H. apply Bool.eqb_prop in H.
  rewrite <- Z.eqb_eq, <- Z.leb_le, H. reflexivity.
Qed.

Lemma long_type_low_bits (x : Z) : 0 <= x < 256 -> 128 <= x -> x - 0x80 = Z.land x 0x7F.
Proof using Type.
  intros Hx Hm.
  pose proof (byte_range_forall
    (fun x => negb (128 <=? x) || (x - 0x80 =? Z.land x 0x7F)) eq_refl x Hx) as H.
  cbv beta in H. destruct (Z.leb_spec 128 x); [|lia]. now apply Z.eqb_eq in H.
Qed.

Lemma flag_bit (x : Z) (n : Z) :
  0 <= n -> (Z.land x (2 ^ n) =? 2 ^ n) = Z.testbit x n.
Proof using Type.
  intros Hn. destruct (Z.testbit x n) eqn:Hb.
  - apply Z.eqb_eq. apply Z.bits_inj'. intros i Hi.
    rewrite Z.land_spec. destruct (Z.eq_dec i n) as [->|Hne].
    + rewrite Hb, Z.pow2_bits_true by lia. reflexivity.
    + rewrite Z.pow2_bits_false by lia. apply andb_false_r.
  - apply Z.eqb_neq. intros E.
    assert (Ht : Z.testbit (Z.land x (2 ^ n)) n = true)
      by (rewrite E; apply Z.pow2_bits_true; lia).
    rewrite Z.land_spec, Hb in Ht. discriminate.
Qed.

(** X4.  What the first byte of a parsed header decides.  If its most
    significant bit is set the header is a long header, whose type is the
    byte without that bit, a value from 0 to 127.  Otherwise it is a
    short header, whose type is the value of the two low bits and is 0, 1
    or 2, whose key-phase flag is bit 6 and whose spin flag is bit 2. *)
Theorem header_fields_of_first_byte (buf : Buffer.t) (start : Z) ho :
  parseHeader buf start = Ok ho ->
  exists first,
    Buffer.readUInt8 buf start = Ok first /\
    match header ho with
    | LongH lh =>
      128 <= first /\
      LongHeader.type lh = first - 128 /\
      LongHeader.type lh = Z.land first 0x7F /\
      0 <= LongHeader.type lh <= 127
    | ShortH sh =>
      first < 128 /\
      ShortHeader.type sh = first mod 4 /\
      0 <= ShortHeader.type sh <= 2 /\
      ShortHeader.keyPhaseBit sh = Z.testbit first 6 /\
      ShortHeader.spinBit sh = Z.testbit first 2
    end.
Proof using Type.
  intros H. apply parseHeader_Ok_inv in H. destruct H as (first & Hf & Hcase).
  pose proof (readUInt8_Ok_inv _ _ _ Hf) as (_ & _ & Hr).
  exists first. split; [assumption|].
  destruct Hcase as [[Hb H]|[Hb H]].
  - apply msb_set_iff in Hb; [|assumption].
    apply parseLongHeader_Ok_inv in H.
    destruct H as (first' & version & c & dcid & scid & Hf' & _ & _ & _ & _ & Hho).
    assert (first' = first) as -> by congruence.
    destruct Hho as [[_ ->]|[_ (vo & pn & _ & _ & ->)]];
      cbn [header LongHeader.type];
      (split; [assumption|]); (split; [reflexivity|]);
      (split; [now apply long_type_low_bits | lia]).
  - assert (Hlt : first < 128).
    { destruct (Z.lt_ge_cases first 128) as [|Hge]; [assumption|].
      apply msb_set_iff in Hge; [contradiction | assumption]. }
    apply parseShortHeader_Ok_inv in H.
    destruct H as (first' & destLen & dcid & pn & Hf' & _ & _ & Hty & _ & ->).
    assert (first' = first) as -> by congruence.
    cbn [header ShortHeader.type ShortHeader.keyPhaseBit ShortHeader.spinBit].
    cbv zeta in Hty.
    split; [assumption|]. split.
    { change 0x3 with (Z.ones 2). rewrite Z.land_ones by lia. reflexivity. }
    split; [lia|]. split.
    + apply (flag_bit first 6). lia.
    + apply (flag_bit first 2). lia.
Qed.

(** X5.  In a parsed long header the payload length and the packet number
    are either both present or both absent, and they are absent exactly
    when the version validator takes the header's version for the
    version-negotiation flag. *)
Theorem long_header_optional_fields (buf : Buffer.t) (start : Z) ho :
  parseLongHeader buf start = Ok ho ->
  exists lh,
    header ho = LongH lh /\
    (LongHeader.payloadLength lh = None <-> IsVersionNegotationFlag (LongHeader.version lh) = true) /\
    (LongHeader.packetNumber lh = None <-> IsVersionNegotationFlag (LongHeader.version lh) = true).
Proof using Type.
  intros H. apply parseLongHeader_Ok_inv in H.
  destruct H as (first & version & c & dcid & scid & _ & _ & _ & _ & _ & Hho).
  destruct Hho as [[Hvn ->]|[Hvn (vo & pn & _ & _ & ->)]]; eexists;
    (split; [reflexivity|]);
    cbn [LongHeader.payloadLength LongHeader.packetNumber LongHeader.version];
    rewrite Hvn; split; split; congruence.
Qed.

(* Buffer.alloc(d) filled by a copy of the d bytes from position a on: the
   bytes the source holds, then zeros *)
Lemma copy_into_alloc (src : Buffer.t) (a d : Z) :
  0 <= a <= Buffer.byteLength src -> 0 <= d ->
  let target := Buffer.copy src (Buffer.alloc d) 0 a (a + d) in
  Buffer.byteLength target = d /\
  forall i, 0 <= i < d ->
    Buffer.at_ target i
    = if a + i <? Buffer.byteLength src then Buffer.at_ src (a + i) else 0.
Proof using Type.
  intros Ha Hd. cbv zeta. unfold Buffer.copy, Buffer.alloc.
  assert (Hal : Buffer.byteLength (repeat x00 (Z.to_nat d)) = d)
    by (unfold Buffer.byteLength; rewrite repeat_length; lia).
  rewrite Hal.
  set (nb := Z.min (Z.min (a + d - a) (d - 0)) (Buffer.byteLength src - a)).
  assert (Hnb : nb = Z.min d (Buffer.byteLength src - a)) by (unfold nb; lia).
  clearbody nb.
  destruct (Z.leb_spec nb 0) as [Hle|Hgt].
  - split; [assumption|]. intros i Hi.
    destruct (Z.ltb_spec (a + i) (Buffer.byteLength src)); [lia|].
    unfold Buffer.at_. now rewrite nth_repeat.
  - cbn [Z.to_nat firstn app]. split.
    + unfold Buffer.byteLength in *.
      rewrite length_app, length_firstn, length_skipn, length_skipn, repeat_length. lia.
    + intros i Hi. unfold Buffer.at_.
      assert (Hmid : length (firstn (Z.to_nat nb) (skipn (Z.to_nat a) src)) = Z.to_nat nb).
      { unfold Buffer.byteLength in *. rewrite length_firstn, length_skipn. lia. }
      destruct (Z.ltb_spec (a + i) (Buffer.byteLength src)) as [Hin|Hout].
      * rewrite app_nth1 by lia.
        rewrite nth_firstn.
        destruct (Nat.ltb_spec (Z.to_nat i) (Z.to_nat nb)); [|lia].
        rewrite nth_skipn. do 2 f_equal. lia.
      * rewrite app_nth2 by lia.
        rewrite nth_skipn, nth_repeat. reflexivity.
Qed.

(** X6.  The destination connection ID of a parsed short header is built
    from exactly [destLen] bytes, where [destLen] is the byte after the
    type byte, and those bytes start at that length byte itself: a
    non-empty connection ID has its own length as first byte.  Bytes that
    lie beyond the buffer end are zero. *)
Theorem short_header_connection_id_bytes (buf : Buffer.t) (start : Z) ho :
  parseShortHeader buf start = Ok ho ->
  exists sh destLen cid,
    header ho = ShortH sh /\
    Buffer.readUInt8 buf (start + 1) = Ok destLen /\
    newConnectionID cid destLen = Some (ShortHeader.destConnectionID sh) /\
    Buffer.byteLength cid = destLen /\
    (0 < destLen -> Buffer.at_ cid 0 = destLen) /\
    (forall i, 0 <= i < destLen ->
       Buffer.at_ cid i
       = if start + 1 + i <? Buffer.byteLength buf
         then Buffer.at_ buf (start + 1 + i) else 0).
Proof using Type.
  intros H. apply parseShortHeader_Ok_inv in H.
  destruct H as (first & destLen & dcid & pn & Hf & Hd & Hc & _ & _ & ->).
  pose proof (readUInt8_Ok_inv _ _ _ Hf) as (Hstart & _ & _).
  pose proof (readUInt8_Ok_inv _ _ _ Hd) as (Hlen & Hat & Hdr).
  destruct (copy_into_alloc buf (start + 1) destLen) as [Hl Hbytes]; [lia | lia |].
  eexists _, destLen, _. cbn [header ShortHeader.destConnectionID].
  split; [reflexivity|]. split; [assumption|]. split; [exact Hc|].
  split; [assumption|]. split; [|assumption].
  intros Hpos. rewrite (Hbytes 0) by lia.
  replace (start + 1 + 0) with (start + 1) by lia.
  destruct (Z.ltb_spec (start + 1) (Buffer.byteLength buf)); [|lia].
  now symmetry.
Qed.

Lemma byteLength_app_cons (pre rest : Buffer.t) (b : byte) :
  Buffer.byteLength (pre ++ b :: rest) = Buffer.byteLength pre + 1 + Buffer.byteLength rest.
Proof using Type. unfold Buffer.byteLength. rewrite length_app. cbn [length]. lia. Qed.

Lemma skipn_app_cons_after {A : Type} (pre rest : list A) (b : A) (n : nat) :
  (length pre < n)%nat ->
  skipn n (pre ++ b :: rest) = skipn (n - length pre - 1) rest.
Proof using Type.
  intros H. rewrite skipn_app.
  rewrite (skipn_all2 pre) by lia. cbn [app].
  destruct (n - length pre)%nat as [|k] eqn:E; [lia|].
  cbn [skipn]. f_equal. lia.
Qed.

(* reads behind one byte of a buffer do not see that byte *)
Lemma readUInt8_behind (pre rest : Buffer.t) (b b' : byte) (i : Z) :
  Buffer.byteLength pre < i ->
  Buffer.readUInt8 (pre ++ b :: rest) i = Buffer.readUInt8 (pre ++ b' :: rest) i.
Proof using Type.
  intros Hi. unfold Buffer.readUInt8. rewrite !byteLength_app_cons.
  destruct ((0 <=? i) && (i <? Buffer.byteLength pre + 1 + Buffer.byteLength rest));
    [|reflexivity].
  unfold Buffer.at_. f_equal. f_equal.
  unfold Buffer.byteLength in Hi.
  rewrite !app_nth2 by lia.
  destruct (Z.to_nat i - length pre)%nat as [|k] eqn:E; [lia | reflexivity].
Qed.

Lemma slice_behind (pre rest : Buffer.t) (b b' : byte) (a c : Z) :
  Buffer.byteLength pre < a ->
  Buffer.slice (pre ++ b :: rest) a c = Buffer.slice (pre ++ b' :: rest) a c.
Proof using Type.
  intros Ha. unfold Buffer.slice. rewrite !byteLength_app_cons.
  pose proof (byteLength_nonneg rest) as Hr. pose proof (byteLength_nonneg pre) as Hp.
  set (len := Buffer.byteLength pre + 1 + Buffer.byteLength rest).
  assert (Hadj : Buffer.byteLength pre < Buffer.adjustOffset a len).
  { rewrite adjustOffset_nonneg by lia. lia. }
  unfold Buffer.byteLength in Hadj.
  rewrite !skipn_app_cons_after by lia. reflexivity.
Qed.

Lemma copy_behind (pre rest target : Buffer.t) (b b' : byte) (a c : Z) :
  Buffer.byteLength pre < a ->
  Buffer.copy (pre ++ b :: rest) target 0 a c = Buffer.copy (pre ++ b' :: rest) target 0 a c.
Proof using Type.
  intros Ha. unfold Buffer.copy. rewrite !byteLength_app_cons.
  unfold Buffer.byteLength in Ha.
  rewrite !skipn_app_cons_after by lia. reflexivity.
Qed.

Lemma readUInt8_at_cons (pre rest : Buffer.t) (b : byte) :
  Buffer.readUInt8 (pre ++ b :: rest) (Buffer.byteLength pre) = Ok (Buffer.u8 b).
Proof using Type.
  pose proof (byteLength_nonneg pre). pose proof (byteLength_nonneg rest).
  rewrite readUInt8_in_range by (rewrite byteLength_app_cons; lia).
  unfold Buffer.at_, Buffer.byteLength. rewrite Nat2Z.id.
  now rewrite nth_middle.
Qed.

Lemma land_submask (x y m n : Z) :
  Z.land m n = n -> Z.land x m = Z.land y m -> Z.land x n = Z.land y n.
Proof using Type.
  intros Hm H. rewrite <- Hm, !Z.land_assoc, H. reflexivity.
Qed.

(** X7.  The short-header parser never looks at the three bits 0x38 of the
    first byte (the two reserved bits and the demultiplexing bit): when two
    buffers differ only in those bits of the byte at the start offset and
    one of them parses, so does the other, with the same type, connection
    ID, packet number, key-phase flag, spin flag and offset. *)
Theorem short_header_ignores_reserved_bits (pre rest : Buffer.t) (b b' : byte) ho :
  Z.land (Buffer.u8 b) 0xC7 = Z.land (Buffer.u8 b') 0xC7 ->
  parseShortHeader (pre ++ b :: rest) (Buffer.byteLength pre) = Ok ho ->
  exists ho' sh sh',
    parseShortHeader (pre ++ b' :: rest) (Buffer.byteLength pre) = Ok ho' /\
    header ho = ShortH sh /\ header ho' = ShortH sh' /\
    offset ho' = offset ho /\
    ShortHeader.type sh' = ShortHeader.type sh /\
    ShortHeader.destConnectionID sh' = ShortHeader.destConnectionID sh /\
    ShortHeader.packetNumber sh' = ShortHeader.packetNumber sh /\
    ShortHeader.keyPhaseBit sh' = ShortHeader.keyPhaseBit sh /\
    ShortHeader.spinBit sh' = ShortHeader.spinBit sh.
Proof using Type.
  intros Hbits H. apply parseShortHeader_Ok_inv in H.
  destruct H as (first & destLen & dcid & pn & Hf & Hd & Hc & Hty & Hpn & ->).
  cbv zeta in *.
  rewrite readUInt8_at_cons in Hf. injection Hf as <-.
  pose proof (readUInt8_Ok_inv _ _ _ Hd) as (_ & _ & Hdr).
  assert (E3 : Z.land (Buffer.u8 b) 0x3 = Z.land (Buffer.u8 b') 0x3)
    by (apply (land_submask _ _ 0xC7); [reflexivity | assumption]).
  assert (E40 : Z.land (Buffer.u8 b) 0x40 = Z.land (Buffer.u8 b') 0x40)
    by (apply (land_submask _ _ 0xC7); [reflexivity | assumption]).
  assert (E04 : Z.land (Buffer.u8 b) 0x04 = Z.land (Buffer.u8 b') 0x04)
    by (apply (land_submask _ _ 0xC7); [reflexivity | assumption]).
  rewrite (readUInt8_behind pre rest b b') in Hd by lia.
  rewrite (copy_behind pre rest _ b b') in Hc by lia.
  rewrite (slice_behind pre rest b b') in Hpn by lia.
  rewrite E3 in Hty, Hpn.
  pose proof (parseShortHeader_intro (pre ++ b' :: rest) (Buffer.byteLength pre)
                (Buffer.u8 b') destLen dcid pn (readUInt8_at_cons pre rest b') Hd Hc Hty Hpn)
    as Hparse.
  eexists _, _, _. split; [exact Hparse|].
  cbn [header offset ShortHeader.type ShortHeader.destConnectionID
       ShortHeader.packetNumber ShortHeader.keyPhaseBit ShortHeader.spinBit].
  rewrite E3, E40, E04. repeat split.
Qed.

Section DatagramContract.
Hypothesis decode_value_nonneg :
  forall buf off vo, VLIE_decode buf off = Ok vo -> 0 <= VLIE.value vo.
Hypothesis decode_advances :
  forall buf off vo, VLIE_decode buf off = Ok vo -> off <= VLIE.offset vo.

Lemma packets_offsets (buf : Buffer.t) (start : Z) hos :
  packets buf start hos ->
  Forall (fun ho => start + 2 <= offset ho) hos /\
  StronglySorted Z.lt (map offset hos) /\
  start + 10 * (Z.of_nat (length hos) - 1) < Buffer.byteLength buf.
Proof using decode_value_nonneg decode_advances.
  induction 1 as [start ho Hp Hterm|start ho lh pl rest Hp Hlh Hpl Hlt Hrest IH].
  - pose proof (parseHeader_progress _ _ decode_value_nonneg decode_advances _ _ _ Hp)
      as (Hstart & Hoff & _).
    split; [now constructor|]. split; [repeat constructor|].
    cbn [length]. lia.
  - pose proof (parseHeader_progress _ _ decode_value_nonneg decode_advances _ _ _ Hp)
      as (Hstart & Hoff & Hlong).
    specialize (Hlong lh pl Hlh Hpl).
    destruct IH as (Hall & Hsorted & Hcount).
    split; [|split].
    + constructor; [assumption|].
      eapply Forall_impl; [|exact Hall]. cbv beta. intros x Hx. lia.
    + cbn [map]. constructor; [assumption|].
      apply Forall_map. eapply Forall_impl; [|exact Hall]. cbv beta. intros x Hx. lia.
    + cbn [length]. lia.
Qed.

(** X8.  The entries [parse] returns are ordered: their offsets strictly
    increase, each packet before the last takes at least 10 bytes, so a
    datagram of n bytes yields fewer than n / 10 + 1 entries. *)
Theorem parse_offsets_increase (buf : Buffer.t) hos :
  parse buf = Some (Ok hos) ->
  StronglySorted Z.lt (map offset hos) /\
  Forall (fun ho => 2 <= offset ho) hos /\
  10 * (Z.of_nat (length hos) - 1) < Buffer.byteLength buf.
Proof using decode_value_nonneg decode_advances.
  intros H. apply parse_result_is_packet_chain_aux in H.
  apply packets_offsets in H. destruct H as (Hall & Hsorted & Hcount).
  split; [assumption|]. split; [|lia].
  eapply Forall_impl; [|exact Hall]. cbv beta. intros x Hx. lia.
Qed.

(** X9.  Every chain of packets that starts at offset 0 is what [parse]
    returns: with X1, [parse] returns a list exactly when the list is the
    chain of packets of the datagram. *)
Theorem parse_of_packet_chain (buf : Buffer.t) hos :
  packets buf 0 hos ->
  parse buf = Some (Ok hos).
Proof using decode_value_nonneg decode_advances.
  intros H.
  destruct (packets_parse_while buf 0 hos H [] 0) as (ho & rest & fuel & -> & Hrun).
  cbn [app] in Hrun.
  assert (Hp : parseHeader buf 0 = Ok ho) by (inversion H; assumption).
  unfold HeaderParser.parse, HeaderParser.parse_fuel. rewrite Hp.
  destruct (parse_while_terminates _ _ decode_value_nonneg decode_advances
              (S (length buf)) buf [ho] ho 0 Hp) as [r Hr].
  { unfold Buffer.byteLength. lia. }
  rewrite Hr. f_equal.
  pose proof (parse_while_fuel_mono _ _ _ (Nat.max fuel (S (length buf))) _ _ _ _ _
                Hrun (Nat.le_max_l _ _)) as H1.
  pose proof (parse_while_fuel_mono _ _ _ (Nat.max fuel (S (length buf))) _ _ _ _ _
                Hr (Nat.le_max_r _ _)) as H2.
  congruence.
Qed.

End DatagramContract.
End DatagramProperties.

(** * The HTTP/3 SETTINGS frame *)

Section SettingsFrameProperties.
Variable VLIE_encode : Z -> result Buffer.t.
Variable VLIE_decode : Buffer.t -> Z -> result VLIE.VLIEOffset.
Variable VLIE_getEncodedByteLength : Z -> Z.
Variable SETTINGS : byte.

Local Abbreviation Http3Setting := Http3SettingsFrame.Http3Setting.
Local Abbreviation parseParameter := (Http3SettingsFrame.parseParameter VLIE_decode).
Local Abbreviation parseParameters_while :=
  (Http3SettingsFrame.parseParameters_while VLIE_decode).
Local Abbreviation parseParameters := (Http3SettingsFrame.parseParameters VLIE_decode).
Local Abbreviation fromPayload := (Http3SettingsFrame.fromPayload VLIE_decode).
Local Abbreviation getPayloadLength :=
  (Http3SettingsFrame.getPayloadLength VLIE_getEncodedByteLength).
Local Abbreviation settingsParameterToBuffer :=
  (Http3SettingsFrame.settingsParameterToBuffer VLIE_encode).
Local Abbreviation payloadtoBuffer_from :=
  (Http3SettingsFrame.payloadtoBuffer_from VLIE_encode).
Local Abbreviation payloadtoBuffer := (Http3SettingsFrame.payloadtoBuffer VLIE_encode).
Local Abbreviation toBuffer :=
  (Http3SettingsFrame.toBuffer VLIE_encode VLIE_getEncodedByteLength SETTINGS).
Local Abbreviation settingsParameters := Http3SettingsFrame.settingsParameters.

Lemma settingsParameterToBuffer_Ok_inv (p : Http3Setting) b :
  settingsParameterToBuffer p = Ok b ->
  exists id v,
    VLIE_encode (Http3SettingsFrame.identifier p) = Ok id /\
    VLIE_encode (Http3SettingsFrame.value p) = Ok v /\
    b = id ++ v.
Proof using Type.
  intros H. unfold Http3SettingsFrame.settingsParameterToBuffer in H.
  bind_inv H. bind_inv H. injection H as <-. now exists x, x0.
Qed.

(* the buffer built so far is a prefix of the result *)
Lemma payloadtoBuffer_from_acc (ps : list Http3Setting) : forall acc,
  payloadtoBuffer_from acc ps
  = match payloadtoBuffer_from [] ps with
    | Ok b => Ok (acc ++ b)
    | Err e => Err e
    end.
Proof using Type.
  induction ps as [|p ps IH]; intros acc; cbn [Http3SettingsFrame.payloadtoBuffer_from].
  - now rewrite app_nil_r.
  - destruct (settingsParameterToBuffer p) as [b|e]; cbn [bind]; [|reflexivity].
    rewrite (IH (acc ++ b)), (IH ([] ++ b)).
    destruct (payloadtoBuffer_from [] ps); [|reflexivity].
    cbn [app]. now rewrite app_assoc.
Qed.

Lemma payloadtoBuffer_from_cons_inv (p : Http3Setting) ps body :
  payloadtoBuffer_from [] (p :: ps) = Ok body ->
  exists id v body',
    VLIE_encode (Http3SettingsFrame.identifier p) = Ok id /\
    VLIE_encode (Http3SettingsFrame.value p) = Ok v /\
    payloadtoBuffer_from [] ps = Ok body' /\
    body = id ++ v ++ body'.
Proof using Type.
  cbn [Http3SettingsFrame.payloadtoBuffer_from]. intros H. bind_inv H.
  apply settingsParameterToBuffer_Ok_inv in Hx. destruct Hx as (id & v & Hid & Hv & ->).
  rewrite payloadtoBuffer_from_acc in H.
  destruct (payloadtoBuffer_from [] ps) as [body'|e]; [|discriminate].
  injection H as <-. exists id, v, body'. cbn [app]. now rewrite <- app_assoc.
Qed.

Section EncodedLength.
Hypothesis encode_length :
  forall v b, VLIE_encode v = Ok b -> Buffer.byteLength b = VLIE_getEncodedByteLength v.

Lemma getPayloadLength_fold (ps : list Http3Setting) : forall acc,
  fold_left
    (fun length param =>
       length + VLIE_getEncodedByteLength (Http3SettingsFrame.identifier param)
              + VLIE_getEncodedByteLength (Http3SettingsFrame.value param)) ps acc
  = acc + getPayloadLength (Http3SettingsFrame.new ps).
Proof using Type.
  unfold Http3SettingsFrame.getPayloadLength. cbn [Http3SettingsFrame.settingsParameters].
  induction ps as [|p ps IH]; intros acc; cbn [fold_left]; [lia|].
  rewrite IH, (IH (0 + _ + _)). lia.
Qed.

Lemma payload_length_aux (ps : list Http3Setting) : forall payload,
  payloadtoBuffer_from [] ps = Ok payload ->
  Buffer.byteLength payload = getPayloadLength (Http3SettingsFrame.new ps).
Proof using encode_length.
  induction ps as [|p ps IH]; intros payload H.
  - injection H as <-. reflexivity.
  - apply payloadtoBuffer_from_cons_inv in H.
    destruct H as (id & v & body' & Hid & Hv & Hbody & ->).
    unfold Http3SettingsFrame.getPayloadLength.
    cbn [Http3SettingsFrame.settingsParameters fold_left].
    rewrite getPayloadLength_fold, <- (IH body' Hbody), !byteLength_app.
    rewrite (encode_length _ _ Hid), (encode_length _ _ Hv). lia.
Qed.

(** X10.  The payload length a SETTINGS frame announces is the length of
    the payload it writes: whenever every identifier and value of the
    frame can be encoded, [getPayloadLength] is the byte length of
    [payloadtoBuffer]. *)
Theorem payload_length_is_buffer_length (frame : Http3SettingsFrame.t) payload :
  payloadtoBuffer frame = Ok payload ->
  getPayloadLength frame = Buffer.byteLength payload.
Proof using encode_length.
  destruct frame as [ps]. unfold Http3SettingsFrame.payloadtoBuffer.
  cbn [Http3SettingsFrame.settingsParameters]. intros H.
  symmetry. now apply payload_length_aux.
Qed.

Lemma skipn_repeat {A : Type} (x : A) (n k : nat) :
  skipn k (repeat x n) = repeat x (n - k).
Proof using Type.
  revert k. induction n as [|n IH]; intros [|k]; cbn; try reflexivity. apply IH.
Qed.

(* source.copy(target) into a zero-filled target that is long enough *)
Lemma copy_into_zeros (src : Buffer.t) (n : Z) :
  Buffer.byteLength src <= n ->
  Buffer.copy src (Buffer.alloc n) 0 0 (Buffer.byteLength src)
  = src ++ repeat x00 (Z.to_nat n - length src).
Proof using Type.
  intros Hn. unfold Buffer.copy, Buffer.alloc.
  assert (Hal : Buffer.byteLength (repeat x00 (Z.to_nat n)) = n)
    by (unfold Buffer.byteLength in *; rewrite repeat_length; lia).
  rewrite Hal.
  set (nb := Z.min (Z.min (Buffer.byteLength src - 0) (n - 0)) (Buffer.byteLength src - 0)).
  assert (Hnb : nb = Buffer.byteLength src) by (unfold nb; lia). clearbody nb. subst nb.
  destruct (Z.leb_spec (Buffer.byteLength src) 0) as [Hle|Hgt].
  - destruct src; [|unfold Buffer.byteLength in Hle; cbn [length] in Hle; lia].
    cbn [app length]. now rewrite Nat.sub_0_r.
  - cbn [Z.to_nat firstn skipn app].
    unfold Buffer.byteLength. rewrite Z.add_0_l, Nat2Z.id, firstn_all, skipn_repeat.
    reflexivity.
Qed.

Lemma writeUInt8_at_end_of_prefix (pre rest : Buffer.t) (x v : byte) :
  Http3SettingsFrame.writeUInt8 (pre ++ x :: rest) v (Buffer.byteLength pre)
  = Ok (pre ++ v :: rest).
Proof using Type.
  unfold Http3SettingsFrame.writeUInt8. rewrite byteLength_app_cons.
  pose proof (byteLength_nonneg pre). pose proof (byteLength_nonneg rest).
  destruct (Z.leb_spec 0 (Buffer.byteLength pre)); [|lia].
  destruct (Z.ltb_spec (Buffer.byteLength pre)
              (Buffer.byteLength pre + 1 + Buffer.byteLength rest)); [|lia].
  cbn [andb]. unfold Buffer.byteLength.
  replace (Z.to_nat (Z.of_nat (length pre) + 1)) with (length pre + 1)%nat by lia.
  rewrite Nat2Z.id, firstn_app, firstn_all, Nat.sub_diag, firstn_O, app_nil_r.
  rewrite skipn_app, (skipn_all2 pre) by lia.
  replace (length pre + 1 - length pre)%nat with 1%nat by lia.
  reflexivity.
Qed.

(* payload.copy(target, targetStart) over the zeros a target ends with *)
Lemma copy_over_zeros (payload pre zeros : Buffer.t) :
  length zeros = length payload ->
  Buffer.copy payload (pre ++ zeros) (Buffer.byteLength pre) 0 (Buffer.byteLength payload)
  = pre ++ payload.
Proof using Type.
  intros Hz. unfold Buffer.copy. rewrite byteLength_app.
  set (nb := Z.min (Z.min (Buffer.byteLength payload - 0)
                      (Buffer.byteLength pre + Buffer.byteLength zeros - Buffer.byteLength pre))
                   (Buffer.byteLength payload - 0)).
  assert (Hnb : nb = Buffer.byteLength payload)
    by (unfold nb, Buffer.byteLength; lia). clearbody nb. subst nb.
  destruct (Z.leb_spec (Buffer.byteLength payload) 0) as [Hle|Hgt].
  - destruct payload; [|unfold Buffer.byteLength in Hle; cbn [length] in Hle; lia].
    destruct zeros; [reflexivity | discriminate].
  - unfold Buffer.byteLength.
    rewrite Nat2Z.id, firstn_app, firstn_all, Nat.sub_diag, firstn_O, app_nil_r.
    cbn [Z.to_nat skipn]. rewrite Nat2Z.id, firstn_all.
    rewrite skipn_all2 by (rewrite length_app; lia).
    now rewrite app_nil_r.
Qed.

Lemma toBuffer_bytes (frame : Http3SettingsFrame.t) lenBytes payload :
  VLIE_encode (getPayloadLength frame) = Ok lenBytes ->
  payloadtoBuffer frame = Ok payload ->
  toBuffer frame = Ok (lenBytes ++ SETTINGS :: payload).
Proof using encode_length.
  intros Hlen Hpayload.
  assert (Hpl : getPayloadLength frame = Buffer.byteLength payload).
  { destruct frame as [ps]. symmetry. now apply payload_length_aux. }
  unfold Http3SettingsFrame.toBuffer. rewrite Hlen. cbn [bind]. rewrite Hpl.
  pose proof (byteLength_nonneg lenBytes). pose proof (byteLength_nonneg payload).
  unfold Http3SettingsFrame.alloc.
  destruct (Z.ltb_spec (Buffer.byteLength lenBytes + 1 + Buffer.byteLength payload) 0);
    [lia|].
  cbn [bind]. rewrite copy_into_zeros by lia.
  replace (Z.to_nat (Buffer.byteLength lenBytes + 1 + Buffer.byteLength payload)
           - length lenBytes)%nat
    with (S (length payload)) by (unfold Buffer.byteLength; lia).
  cbn [repeat]. rewrite writeUInt8_at_end_of_prefix. cbn [bind].
  rewrite Hpayload. cbn [bind]. f_equal.
  replace (Buffer.byteLength lenBytes + 1) with (Buffer.byteLength (lenBytes ++ [SETTINGS]))
    by (rewrite byteLength_app; reflexivity).
  replace (lenBytes ++ SETTINGS :: repeat x00 (length payload))
    with ((lenBytes ++ [SETTINGS]) ++ repeat x00 (length payload))
    by (now rewrite <- app_assoc).
  rewrite copy_over_zeros by apply repeat_length.
  now rewrite <- app_assoc.
Qed.

(** X11.  The bytes of a SETTINGS frame: whenever the payload length and
    every identifier and value can be encoded, [toBuffer] is the encoded
    payload length, then the frame type byte, then the payload. *)
Theorem toBuffer_layout (frame : Http3SettingsFrame.t) lenBytes payload :
  VLIE_encode (getPayloadLength frame) = Ok lenBytes ->
  payloadtoBuffer frame = Ok payload ->
  toBuffer frame = Ok (lenBytes ++ SETTINGS :: payload).
Proof using encode_length. apply toBuffer_bytes. Qed.

End EncodedLength.

Lemma parseParameter_Ok_inv (buf : Buffer.t) (off : Z) p off' :
  parseParameter buf off = Ok (p, off') ->
  exists vo1 vo2,
    VLIE_decode buf off = Ok vo1 /\
    VLIE_decode buf (VLIE.offset vo1) = Ok vo2 /\
    p = Http3SettingsFrame.mkHttp3Setting (VLIE.value vo1) (VLIE.value vo2) /\
    off' = VLIE.offset vo2.
Proof using Type.
  intros H. unfold Http3SettingsFrame.parseParameter in H.
  bind_inv H. bind_inv H. injection H as <- <-. now exists x, x0.
Qed.

Lemma parseParameters_while_mono (fuel : nat) : forall fuel' buf off acc r,
  parseParameters_while fuel buf off acc = Some r ->
  (fuel <= fuel')%nat ->
  parseParameters_while fuel' buf off acc = Some r.
Proof using Type.
  induction fuel as [|fuel IH]; intros fuel' buf off acc r H Hle; [discriminate|].
  destruct fuel' as [|fuel']; [lia|].
  cbn [Http3SettingsFrame.parseParameters_while] in *.
  destruct (off <? Buffer.byteLength buf); [|assumption].
  destruct (parseParameter buf off) as [[p off']|e]; [|assumption].
  apply IH; [assumption | lia].
Qed.

Section Decoding.
Hypothesis decode_advances_strictly :
  forall buf off vo, VLIE_decode buf off = Ok vo -> off < VLIE.offset vo.

Lemma parseParameter_advances (buf : Buffer.t) (off : Z) p off' :
  parseParameter buf off = Ok (p, off') -> off + 2 <= off'.
Proof using decode_advances_strictly.
  intros H. apply parseParameter_Ok_inv in H.
  destruct H as (vo1 & vo2 & H1 & H2 & _ & ->).
  apply decode_advances_strictly in H1, H2. lia.
Qed.

Lemma parseParameters_while_terminates (fuel : nat) : forall buf off acc,
  (Z.to_nat (Buffer.byteLength buf - off) < fuel)%nat ->
  exists r, parseParameters_while fuel buf off acc = Some r.
Proof using decode_advances_strictly.
  induction fuel as [|fuel IH]; intros buf off acc Hfuel; [lia|].
  cbn [Http3SettingsFrame.parseParameters_while].
  destruct (Z.ltb_spec off (Buffer.byteLength buf)) as [Hlt|Hge]; [|eauto].
  destruct (parseParameter buf off) as [[p off']|e] eqn:Hp; [|eauto].
  apply parseParameter_advances in Hp. apply IH. lia.
Qed.

Lemma parseParameters_while_result (fuel : nat) : forall buf off acc ps off',
  parseParameters_while fuel buf off acc = Some (Ok (ps, off')) ->
  exists news,
    ps = acc ++ news /\
    Buffer.byteLength buf <= off' /\
    off + 2 * Z.of_nat (length news) <= off'.
Proof using decode_advances_strictly.
  induction fuel as [|fuel IH]; intros buf off acc ps off' H; [discriminate|].
  cbn [Http3SettingsFrame.parseParameters_while] in H.
  destruct (Z.ltb_spec off (Buffer.byteLength buf)) as [Hlt|Hge].
  - destruct (parseParameter buf off) as [[p off1]|e] eqn:Hp; [|discriminate].
    apply parseParameter_advances in Hp.
    apply IH in H. destruct H as (news & -> & Hend & Hcount).
    exists (p :: news). rewrite <- app_assoc. cbn [app length].
    split; [reflexivity|]. split; [assumption | lia].
  - injection H as <- <-. exists []. rewrite app_nil_r. cbn [length].
    split; [reflexivity|]. split; lia.
Qed.

(** X12.  Parsing the parameters of a SETTINGS payload terminates, with an
    error or a result, within the distance from the start offset to the
    buffer end plus one tests of the loop condition.  A result is returned
    only with an offset at or beyond the buffer end, and every parameter
    in it has taken at least 2 bytes. *)
Theorem parseParameters_terminates (buf : Buffer.t) (off : Z) :
  exists r,
    parseParameters buf off = Some r /\
    (forall fuel, (Z.to_nat (Buffer.byteLength buf - off) < fuel)%nat ->
       parseParameters_while fuel buf off [] = Some r) /\
    (forall ps off', r = Ok (ps, off') ->
       Buffer.byteLength buf <= off' /\ off + 2 * Z.of_nat (length ps) <= off').
Proof using decode_advances_strictly.
  unfold Http3SettingsFrame.parseParameters.
  destruct (parseParameters_while_terminates
              (S (Z.to_nat (Buffer.byteLength buf - off))) buf off []) as [r Hr]; [lia|].
  exists r. split; [assumption|]. split.
  - intros fuel Hfuel. apply (parseParameters_while_mono _ _ _ _ _ _ Hr). lia.
  - intros ps off' ->. apply parseParameters_while_result in Hr.
    destruct Hr as (news & -> & Hend & Hcount). now split.
Qed.

Section RoundTrip.
(* decoding takes back what encoding wrote, wherever it stands in a buffer *)
Hypothesis decode_encode :
  forall v b pre post,
    VLIE_encode v = Ok b ->
    VLIE_decode (pre ++ b ++ post) (Buffer.byteLength pre)
    = Ok (VLIE.mkVLIEOffset v (Buffer.byteLength pre + Buffer.byteLength b)).

Lemma encode_nonempty (v : Z) b : VLIE_encode v = Ok b -> 0 < Buffer.byteLength b.
Proof using decode_advances_strictly decode_encode.
  intros H. pose proof (decode_encode v b [] [] H) as Hd.
  apply decode_advances_strictly in Hd. cbn [VLIE.offset] in Hd. lia.
Qed.

Lemma parseParameter_encoded (p : Http3Setting) id v pre post :
  VLIE_encode (Http3SettingsFrame.identifier p) = Ok id ->
  VLIE_encode (Http3SettingsFrame.value p) = Ok v ->
  parseParameter (pre ++ id ++ v ++ post) (Buffer.byteLength pre)
  = Ok (p, Buffer.byteLength pre + Buffer.byteLength id + Buffer.byteLength v).
Proof using decode_encode.
  intros Hid Hv. unfold Http3SettingsFrame.parseParameter.
  rewrite (decode_encode _ id pre (v ++ post) Hid). cbn [bind VLIE.value VLIE.offset].
  replace (pre ++ id ++ v ++ post) with ((pre ++ id) ++ v ++ post)
    by (now rewrite <- app_assoc).
  rewrite <- byteLength_app.
  rewrite (decode_encode _ v (pre ++ id) post Hv). cbn [bind VLIE.value VLIE.offset].
  destruct p. reflexivity.
Qed.

(* the loop, run on the encoding of [ps] that stands behind [pre], arrives
   behind it with [ps] collected *)
Lemma parse_encoded_parameters (ps : list Http3Setting) : forall body,
  payloadtoBuffer_from [] ps = Ok body ->
  forall pre post acc fuel,
    parseParameters_while (length ps + fuel) (pre ++ body ++ post) (Buffer.byteLength pre) acc
    = parseParameters_while fuel (pre ++ body ++ post)
        (Buffer.byteLength pre + Buffer.byteLength body) (acc ++ ps).
Proof using decode_advances_strictly decode_encode.
  induction ps as [|p ps IH]; intros body H pre post acc fuel.
  - injection H as <-. cbn [length Nat.add app].
    rewrite app_nil_r. f_equal. unfold Buffer.byteLength. cbn [length]. lia.
  - apply payloadtoBuffer_from_cons_inv in H.
    destruct H as (id & v & body' & Hid & Hv & Hbody & ->).
    pose proof (encode_nonempty _ _ Hid) as Hpos.
    cbn [length Nat.add Http3SettingsFrame.parseParameters_while].
    pose proof (byteLength_nonneg v). pose proof (byteLength_nonneg body').
    pose proof (byteLength_nonneg post).
    destruct (Z.ltb_spec (Buffer.byteLength pre)
                (Buffer.byteLength (pre ++ (id ++ v ++ body') ++ post))) as [_|Hge];
      [|rewrite !byteLength_app in Hge; lia].
    replace (pre ++ (id ++ v ++ body') ++ post) with (pre ++ id ++ v ++ body' ++ post)
      by (now rewrite <- !app_assoc).
    rewrite (parseParameter_encoded p id v pre (body' ++ post) Hid Hv).
    replace (pre ++ id ++ v ++ body' ++ post) with ((pre ++ id ++ v) ++ body' ++ post)
      by (now rewrite <- !app_assoc).
    replace (Buffer.byteLength pre + Buffer.byteLength id + Buffer.byteLength v)
      with (Buffer.byteLength (pre ++ id ++ v)) by (rewrite !byteLength_app; lia).
    rewrite (IH body' Hbody (pre ++ id ++ v) post (acc ++ [p]) fuel).
    f_equal; [rewrite !byteLength_app; lia | now rewrite <- app_assoc].
Qed.

Lemma encoded_parameters_length (ps : list Http3Setting) : forall body,
  payloadtoBuffer_from [] ps = Ok body ->
  Z.of_nat (length ps) <= Buffer.byteLength body.
Proof using decode_advances_strictly decode_encode.
  induction ps as [|p ps IH]; intros body H.
  - cbn [length]. apply byteLength_nonneg.
  - apply payloadtoBuffer_from_cons_inv in H.
    destruct H as (id & v & body' & Hid & Hv & Hbody & ->).
    pose proof (encode_nonempty _ _ Hid). pose proof (byteLength_nonneg v).
    specialize (IH body' Hbody). rewrite !byteLength_app. cbn [length]. lia.
Qed.

(** X13.  Settings round trip: parsing the payload a frame writes gives
    back the frame's parameters, in order, and stops exactly at the end of
    the payload; [fromPayload] rebuilds the frame. *)
Theorem settings_payload_roundtrip (frame : Http3SettingsFrame.t) payload :
  payloadtoBuffer frame = Ok payload ->
  parseParameters payload 0
    = Some (Ok (settingsParameters frame, Buffer.byteLength payload)) /\
  fromPayload payload 0 = Some (Ok frame).
Proof using decode_advances_strictly decode_encode.
  destruct frame as [ps]. unfold Http3SettingsFrame.payloadtoBuffer.
  cbn [Http3SettingsFrame.settingsParameters]. intros H.
  assert (Hparse : parseParameters payload 0 = Some (Ok (ps, Buffer.byteLength payload))).
  { unfold Http3SettingsFrame.parseParameters.
    apply (parseParameters_while_mono (length ps + 1)).
    - pose proof (parse_encoded_parameters ps payload H [] [] [] 1%nat) as Hrun.
      cbn [app] in Hrun. rewrite app_nil_r in Hrun.
      change (Buffer.byteLength []) with 0 in Hrun. rewrite Z.add_0_l in Hrun.
      rewrite Hrun. cbn [Http3SettingsFrame.parseParameters_while].
      now rewrite Z.ltb_irrefl.
    - pose proof (encoded_parameters_length ps payload H). lia. }
  split; [assumption|].
  unfold Http3SettingsFrame.fromPayload. now rewrite Hparse.
Qed.

Section WithinBuffer.
Hypothesis decode_within :
  forall buf off vo, VLIE_decode buf off = Ok vo -> VLIE.offset vo <= Buffer.byteLength buf.

(** X14.  A payload that ends in the middle of a parameter is refused:
    when one more encoded identifier, without its value, follows the
    parameters a frame writes, parsing fails and no frame is built. *)
Theorem settings_dangling_identifier_fails (frame : Http3SettingsFrame.t) payload v b :
  payloadtoBuffer frame = Ok payload ->
  VLIE_encode v = Ok b ->
  exists e,
    parseParameters (payload ++ b) 0 = Some (Err e) /\
    fromPayload (payload ++ b) 0 = Some (Err e).
Proof using decode_advances_strictly decode_encode decode_within.
  destruct frame as [ps]. unfold Http3SettingsFrame.payloadtoBuffer.
  cbn [Http3SettingsFrame.settingsParameters]. intros H Hb.
  pose proof (encode_nonempty _ _ Hb) as Hpos.
  pose proof (byteLength_nonneg payload) as Hpl.
  assert (Hparam : exists e, parseParameter (payload ++ b) (Buffer.byteLength payload) = Err e).
  { unfold Http3SettingsFrame.parseParameter.
    pose proof (decode_encode v b payload [] Hb) as Hd. rewrite app_nil_r in Hd.
    rewrite Hd. cbn [bind VLIE.value VLIE.offset].
    destruct (VLIE_decode (payload ++ b) (Buffer.byteLength payload + Buffer.byteLength b))
      as [vo|e] eqn:Hv; [|cbn [bind]; eauto].
    pose proof (decode_advances_strictly _ _ _ Hv).
    pose proof (decode_within _ _ _ Hv) as Hw. rewrite byteLength_app in Hw. lia. }
  destruct Hparam as [e He]. exists e.
  assert (Hparse : parseParameters (payload ++ b) 0 = Some (Err e)).
  { unfold Http3SettingsFrame.parseParameters.
    apply (parseParameters_while_mono (length ps + 1)).
    - pose proof (parse_encoded_parameters ps payload H [] b [] 1%nat) as Hrun.
      cbn [app] in Hrun.
      change (Buffer.byteLength []) with 0 in Hrun. rewrite Z.add_0_l in Hrun.
      rewrite Hrun. cbn [Http3SettingsFrame.parseParameters_while].
      destruct (Z.ltb_spec (Buffer.byteLength payload) (Buffer.byteLength (payload ++ b)))
        as [_|Hge]; [|rewrite byteLength_app in Hge; lia].
      now rewrite He.
    - pose proof (encoded_parameters_length ps payload H).
      rewrite byteLength_app. lia. }
  split; [assumption|].
  unfold Http3SettingsFrame.fromPayload. now rewrite Hparse.
Qed.

End WithinBuffer.
End RoundTrip.
End Decoding.
End SettingsFrameProperties.

(** ** The reference VarInt codec keeps the contracts *)

Lemma VLIE_decode_advances_strictly (buf : Buffer.t) (off : Z) vo :
  VLIE.decode buf off = Ok vo -> off < VLIE.offset vo.
Proof.
  intros H. apply VLIE_decode_Ok_inv in H. destruct H as (first & _ & HL & _ & ->).
  cbn [VLIE.offset]. lia.
Qed.

Lemma VLIE_decode_within (buf : Buffer.t) (off : Z) vo :
  VLIE.decode buf off = Ok vo -> VLIE.offset vo <= Buffer.byteLength buf.
Proof.
  intros H. apply VLIE_decode_Ok_inv in H. destruct H as (first & _ & _ & Hfit & ->).
  exact Hfit.
Qed.

Lemma VLIE_encode_Ok_inv (v : Z) b :
  VLIE.encode v = Ok b ->
  0 <= v < 2 ^ 62 /\
  exists (s : Z) (n : nat),
    0 <= s < 4 /\ 2 ^ s = Z.of_nat (S n) /\ 0 <= v < 64 * 256 ^ Z.of_nat n /\
    VLIE.getEncodedByteLength v = Z.of_nat (S n) /\
    b = Buffer.toBytesBE (S n) (v + s * (64 * 256 ^ Z.of_nat n)).
Proof.
  unfold VLIE.encode. intros H.
  destruct (Z.leb_spec 0 v) as [H0|]; [|discriminate].
  destruct (Z.ltb_spec v (2 ^ 62)) as [H62|]; [|discriminate].
  cbn [andb] in H. injection H as <-. split; [lia|].
  destruct (getEncodedByteLength_cases v (conj H0 H62))
    as [[H E]|[[H E]|[[H E]|[H E]]]]; rewrite E.
  - exists 0, 0%nat. repeat split; lia.
  - exists 1, 1%nat. repeat split; lia.
  - exists 2, 3%nat. repeat split; lia.
  - exists 3, 7%nat. repeat split; lia.
Qed.

Lemma VLIE_encode_length (v : Z) b :
  VLIE.encode v = Ok b -> Buffer.byteLength b = VLIE.getEncodedByteLength v.
Proof.
  intros H. apply VLIE_encode_Ok_inv in H.
  destruct H as (_ & s & n & _ & _ & _ & -> & ->).
  unfold Buffer.byteLength. now rewrite toBytesBE_length.
Qed.

Lemma VLIE_decode_of_encode (v : Z) b :
  VLIE.encode v = Ok b ->
  VLIE.decode b 0 = Ok (VLIE.mkVLIEOffset v (Buffer.byteLength b)).
Proof.
  intros H. apply VLIE_encode_Ok_inv in H.
  destruct H as (_ & s & n & Hs & HL & Hv & _ & ->).
  rewrite (decode_toBytesBE s n v Hs HL Hv).
  unfold Buffer.byteLength. now rewrite toBytesBE_length.
Qed.

(* decoding behind a prefix is decoding without it, moved by its length *)
Lemma VLIE_decode_shift (pre buf : Buffer.t) (off : Z) vo :
  0 <= off ->
  VLIE.decode buf off = Ok vo ->
  VLIE.decode (pre ++ buf) (Buffer.byteLength pre + off)
  = Ok (VLIE.mkVLIEOffset (VLIE.value vo) (Buffer.byteLength pre + VLIE.offset vo)).
Proof.
  intros Hoff H. apply VLIE_decode_Ok_inv in H.
  destruct H as (first & Hf & HL & Hfit & ->). cbn [VLIE.value VLIE.offset].
  pose proof (readUInt8_Ok_inv _ _ _ Hf) as (Hr & Hat & _).
  pose proof (byteLength_nonneg pre) as Hp.
  unfold VLIE.decode.
  rewrite readUInt8_in_range by (rewrite byteLength_app; lia).
  assert (Hnth : Buffer.at_ (pre ++ buf) (Buffer.byteLength pre + off) = first).
  { rewrite Hat. unfold Buffer.at_, Buffer.byteLength. f_equal.
    replace (Z.to_nat (Z.of_nat (length pre) + off)) with (length pre + Z.to_nat off)%nat
      by lia.
    apply app_nth2_plus. }
  rewrite Hnth. cbn [bind]. rewrite byteLength_app.
  destruct (Z.leb_spec (Buffer.byteLength pre + off + 2 ^ Z.shiftr first 6)
              (Buffer.byteLength pre + Buffer.byteLength buf)); [|lia].
  f_equal. f_equal; [|lia]. f_equal. f_equal.
  rewrite skipn_app. unfold Buffer.byteLength.
  rewrite skipn_all2 by lia. cbn [app]. f_equal. lia.
Qed.

Lemma VLIE_decode_encode (v : Z) (b pre post : Buffer.t) :
  VLIE.encode v = Ok b ->
  VLIE.decode (pre ++ b ++ post) (Buffer.byteLength pre)
  = Ok (VLIE.mkVLIEOffset v (Buffer.byteLength pre + Buffer.byteLength b)).
Proof.
  intros H. apply VLIE_decode_of_encode in H.
  assert (H' : VLIE.decode (b ++ post) 0 = Ok (VLIE.mkVLIEOffset v (Buffer.byteLength b))).
  { apply (VLIE_decode_local b [] post); [now rewrite app_nil_r | cbn [VLIE.offset]; lia]. }
  pose proof (VLIE_decode_shift pre (b ++ post) 0 _ (Z.le_refl 0) H') as Hs.
  rewrite Z.add_0_r in Hs. exact Hs.
Qed.

(** ** A frame written and read back *)

Section SettingsFrameComposition.
Variable VLIE_encode : Z -> result Buffer.t.
Variable VLIE_decode : Buffer.t -> Z -> result VLIE.VLIEOffset.
Variable VLIE_getEncodedByteLength : Z -> Z.
Variable SETTINGS : byte.
Hypothesis encode_length :
  forall v b, VLIE_encode v = Ok b -> Buffer.byteLength b = VLIE_getEncodedByteLength v.
Hypothesis decode_advances_strictly :
  forall buf off vo, VLIE_decode buf off = Ok vo -> off < VLIE.offset vo.
Hypothesis decode_encode :
  forall v b pre post,
    VLIE_encode v = Ok b ->
    VLIE_decode (pre ++ b ++ post) (Buffer.byteLength pre)
    = Ok (VLIE.mkVLIEOffset v (Buffer.byteLength pre + Buffer.byteLength b)).

Local Abbreviation getPayloadLength :=
  (Http3SettingsFrame.getPayloadLength VLIE_getEncodedByteLength).
Local Abbreviation payloadtoBuffer := (Http3SettingsFrame.payloadtoBuffer VLIE_encode).
Local Abbreviation toBuffer :=
  (Http3SettingsFrame.toBuffer VLIE_encode VLIE_getEncodedByteLength SETTINGS).
Local Abbreviation fromPayload := (Http3SettingsFrame.fromPayload VLIE_decode).

Lemma toBuffer_Ok_inv (frame : Http3SettingsFrame.t) buf :
  toBuffer frame = Ok buf ->
  exists lenBytes payload,
    VLIE_encode (getPayloadLength frame) = Ok lenBytes /\
    payloadtoBuffer frame = Ok payload.
Proof using Type.
  intros H. unfold Http3SettingsFrame.toBuffer in H.
  bind_inv H. bind_inv H. bind_inv H. bind_inv H. now exists x, x2.
Qed.

(** X15.  A SETTINGS frame that [toBuffer] has written reads back: the
    buffer starts with the VarInt of the payload length, the byte after it
    is the frame type, and [fromPayload] from the byte after that rebuilds
    the frame; the buffer has no byte more. *)
Theorem settings_frame_roundtrip (frame : Http3SettingsFrame.t) buf :
  toBuffer frame = Ok buf ->
  exists lenBytes,
    VLIE_encode (getPayloadLength frame) = Ok lenBytes /\
    VLIE_decode buf 0
      = Ok (VLIE.mkVLIEOffset (getPayloadLength frame) (Buffer.byteLength lenBytes)) /\
    Buffer.readUInt8 buf (Buffer.byteLength lenBytes) = Ok (Buffer.u8 SETTINGS) /\
    fromPayload buf (Buffer.byteLength lenBytes + 1) = Some (Ok frame) /\
    Buffer.byteLength buf = Buffer.byteLength lenBytes + 1 + getPayloadLength frame.
Proof using encode_length decode_advances_strictly decode_encode.
  intros H. destruct (toBuffer_Ok_inv frame buf H) as (lenBytes & payload & Hlen & Hpayload).
  rewrite (toBuffer_bytes _ _ SETTINGS encode_length frame lenBytes payload Hlen Hpayload) in H.
  injection H as <-. exists lenBytes.
  assert (Hpl : getPayloadLength frame = Buffer.byteLength payload).
  { destruct frame as [ps]. symmetry.
    now apply (payload_length_aux _ _ encode_length). }
  split; [assumption|]. split; [|split; [|split]].
  - pose proof (decode_encode _ lenBytes [] (SETTINGS :: payload) Hlen) as Hd.
    exact Hd.
  - apply readUInt8_at_cons.
  - destruct frame as [ps]. unfold Http3SettingsFrame.payloadtoBuffer in Hpayload.
    cbn [Http3SettingsFrame.settingsParameters] in Hpayload.
    unfold Http3SettingsFrame.fromPayload, Http3SettingsFrame.parseParameters.
    pose proof (parse_encoded_parameters _ _ decode_advances_strictly decode_encode
                  ps payload Hpayload (lenBytes ++ [SETTINGS]) [] [] 1%nat) as Hrun.
    rewrite app_nil_r, <- app_assoc in Hrun. cbn [app] in Hrun.
    rewrite byteLength_app in Hrun. change (Buffer.byteLength [SETTINGS]) with 1 in Hrun.
    cbn [Http3SettingsFrame.parseParameters_while] in Hrun.
    rewrite byteLength_app_cons in Hrun.
    rewrite Z.ltb_irrefl in Hrun.
    pose proof (encoded_parameters_length _ _ decode_advances_strictly decode_encode
                  ps payload Hpayload) as Hcount.
    rewrite (parseParameters_while_mono _ _ _ _ _ _ _ Hrun);
      [reflexivity | rewrite byteLength_app_cons; lia].
  - rewrite byteLength_app_cons. lia.
Qed.

End SettingsFrameComposition.

(** ** One header, read alone *)

Section HeaderLocality.
Context {W : WireTypes}.
Variable IsVersionNegotationFlag : Version -> bool.
Variable VLIE_decode : Buffer.t -> Z -> result VLIE.VLIEOffset.
Hypothesis decode_value_nonneg :
  forall buf off vo, VLIE_decode buf off = Ok vo -> 0 <= VLIE.value vo.
Hypothesis decode_advances :
  forall buf off vo, VLIE_decode buf off = Ok vo -> off <= VLIE.offset vo.
Hypothesis decode_local :
  forall pre t t' off vo,
    VLIE_decode (pre ++ t) off = Ok vo ->
    VLIE.offset vo <= Buffer.byteLength pre ->
    VLIE_decode (pre ++ t') off = Ok vo.

(** X16.  A header parse reads no byte at or after the offset it returns:
    when a header, long or short, parses with an offset inside the bytes
    [pre], it parses to the same header and offset whatever bytes follow
    [pre]. *)
Theorem header_parse_reads_up_to_offset (pre t t' : Buffer.t) (start : Z) ho :
  HeaderParser.parseHeader IsVersionNegotationFlag VLIE_decode (pre ++ t) start = Ok ho ->
  HeaderParser.offset ho <= Buffer.byteLength pre ->
  HeaderParser.parseHeader IsVersionNegotationFlag VLIE_decode (pre ++ t') start = Ok ho.
Proof using decode_value_nonneg decode_advances decode_local.
  apply parseHeader_app_swap; assumption.
Qed.

End HeaderLocality.

(** ** The further theorems at work on the samples *)

Lemma parse_result_is_packet_chain_witness :
  exists hos,
    SpecWire.parse Samples.two_long_packets = Some (Ok hos) /\
    length hos = 2%nat /\
    Datagram.packets (W := SpecWire.wire) SpecWire.IsVersionNegotationFlag VLIE.decode
      Samples.two_long_packets 0 hos.
Proof.
  eexists. split; [vm_compute; reflexivity|]. split; [reflexivity|].
  apply (@parse_result_is_packet_chain SpecWire.wire SpecWire.IsVersionNegotationFlag
           VLIE.decode).
  vm_compute; reflexivity.
Defined.

Lemma parse_fails_on_bad_second_packet_witness :
  SpecWire.parseHeader (Samples.long_packet_1 ++ Samples.short_selector_3) 13
    = Err InvalidPacketNumberWidth /\
  SpecWire.parse (Samples.long_packet_1 ++ Samples.short_selector_3)
    = Some (Err InvalidPacketNumberWidth).
Proof.
  split; [vm_compute; reflexivity|].
  eapply (@parse_fails_on_bad_second_packet SpecWire.wire SpecWire.IsVersionNegotationFlag
            VLIE.decode (Samples.long_packet_1 ++ Samples.short_selector_3) _ _ 2).
  - vm_compute; reflexivity.
  - reflexivity.
  - reflexivity.
  - vm_compute; reflexivity.
  - vm_compute; reflexivity.
Defined.

Lemma header_fields_of_first_byte_witness :
  exists ho first,
    SpecWire.parseHeader Samples.short_header 0 = Ok ho /\
    Buffer.readUInt8 Samples.short_header 0 = Ok first /\
    match header ho with
    | LongH lh =>
      128 <= first /\
      LongHeader.type lh = first - 128 /\
      LongHeader.type lh = Z.land first 0x7F /\
      0 <= LongHeader.type lh <= 127
    | ShortH sh =>
      first < 128 /\
      ShortHeader.type sh = first mod 4 /\
      0 <= ShortHeader.type sh <= 2 /\
      ShortHeader.keyPhaseBit sh = Z.testbit first 6 /\
      ShortHeader.spinBit sh = Z.testbit first 2
    end.
Proof.
  eexists.
  destruct (@header_fields_of_first_byte SpecWire.wire SpecWire.IsVersionNegotationFlag
              VLIE.decode Samples.short_header 0 _ eq_refl) as (first & Hf & H).
  exists first. split; [reflexivity|]. split; [exact Hf | exact H].
Defined.

Lemma long_header_optional_fields_witness :
  exists ho lh,
    SpecWire.parseLongHeader Samples.version_negotiation 0 = Ok ho /\
    header ho = LongH lh /\
    (LongHeader.payloadLength lh = None
     <-> SpecWire.IsVersionNegotationFlag (LongHeader.version lh) = true) /\
    (LongHeader.packetNumber lh = None
     <-> SpecWire.IsVersionNegotationFlag (LongHeader.version lh) = true).
Proof.
  eexists.
  destruct (@long_header_optional_fields SpecWire.wire SpecWire.IsVersionNegotationFlag
              VLIE.decode Samples.version_negotiation 0 _ eq_refl) as (lh & H).
  exists lh. split; [reflexivity | exact H].
Defined.

Lemma short_header_connection_id_bytes_witness :
  exists ho sh cid,
    SpecWire.parseShortHeader Samples.short_header 0 = Ok ho /\
    header ho = ShortH sh /\
    newConnectionID cid 4 = Some (ShortHeader.destConnectionID sh) /\
    Buffer.byteLength cid = 4 /\
    Buffer.at_ cid 0 = 4.
Proof.
  eexists.
  destruct (@short_header_connection_id_bytes SpecWire.wire Samples.short_header 0 _ eq_refl)
    as (sh & destLen & cid & Hsh & Hd & Hc & Hl & Hfirst & _).
  assert (E : destLen = 4) by (vm_compute in Hd; congruence).
  rewrite E in Hc, Hl, Hfirst.
  exists sh, cid. split; [reflexivity|]. split; [exact Hsh|]. split; [exact Hc|].
  split; [exact Hl|]. apply Hfirst. reflexivity.
Defined.

Lemma short_header_ignores_reserved_bits_witness :
  exists ho ho' sh sh',
    SpecWire.parseShortHeader Samples.short_header 0 = Ok ho /\
    SpecWire.parseShortHeader (x39 :: tl Samples.short_header) 0 = Ok ho' /\
    header ho = ShortH sh /\ header ho' = ShortH sh' /\
    offset ho' = offset ho /\
    ShortHeader.type sh' = ShortHeader.type sh /\
    ShortHeader.destConnectionID sh' = ShortHeader.destConnectionID sh /\
    ShortHeader.packetNumber sh' = ShortHeader.packetNumber sh /\
    ShortHeader.keyPhaseBit sh' = ShortHeader.keyPhaseBit sh /\
    ShortHeader.spinBit sh' = ShortHeader.spinBit sh.
Proof.
  eexists.
  destruct (@short_header_ignores_reserved_bits SpecWire.wire []
              (tl Samples.short_header) x01 x39 _ eq_refl eq_refl)
    as (ho' & sh & sh' & H).
  exists ho', sh, sh'. split; [reflexivity | exact H].
Defined.

Lemma parse_offsets_increase_witness :
  exists hos,
    SpecWire.parse Samples.two_long_packets = Some (Ok hos) /\
    StronglySorted Z.lt (map offset hos) /\
    Forall (fun ho => 2 <= offset ho) hos /\
    10 * (Z.of_nat (length hos) - 1) < Buffer.byteLength Samples.two_long_packets.
Proof.
  eexists. split; [vm_compute; reflexivity|].
  apply (@parse_offsets_increase SpecWire.wire SpecWire.IsVersionNegotationFlag
           VLIE.decode VLIE_decode_value_nonneg VLIE_decode_advances).
  vm_compute; reflexivity.
Defined.

Lemma parse_of_packet_chain_witness :
  exists hos,
    Datagram.packets (W := SpecWire.wire) SpecWire.IsVersionNegotationFlag VLIE.decode
      Samples.long_then_short 0 hos /\
    SpecWire.parse Samples.long_then_short = Some (Ok hos).
Proof.
  pose proof (@parse_result_is_packet_chain_aux SpecWire.wire
                SpecWire.IsVersionNegotationFlag VLIE.decode Samples.long_then_short
                _ eq_refl) as Hchain.
  eexists. split; [exact Hchain|].
  exact (@parse_of_packet_chain SpecWire.wire SpecWire.IsVersionNegotationFlag
           VLIE.decode VLIE_decode_value_nonneg VLIE_decode_advances _ _ Hchain).
Defined.

Lemma payload_length_is_buffer_length_witness :
  Http3SettingsFrame.payloadtoBuffer VLIE.encode SettingsSamples.frame
    = Ok SettingsSamples.payload /\
  Http3SettingsFrame.getPayloadLength VLIE.getEncodedByteLength SettingsSamples.frame
    = Buffer.byteLength SettingsSamples.payload.
Proof.
  split; [reflexivity|].
  apply (payload_length_is_buffer_length VLIE.encode VLIE.getEncodedByteLength
           VLIE_encode_length).
  reflexivity.
Defined.

Lemma toBuffer_layout_witness :
  Http3SettingsFrame.toBuffer VLIE.encode VLIE.getEncodedByteLength SettingsSamples.SETTINGS
    SettingsSamples.frame
  = Ok ([x08] ++ SettingsSamples.SETTINGS :: SettingsSamples.payload).
Proof.
  apply (toBuffer_layout VLIE.encode VLIE.getEncodedByteLength SettingsSamples.SETTINGS
           VLIE_encode_length); reflexivity.
Defined.

Lemma parseParameters_terminates_witness :
  exists r,
    Http3SettingsFrame.parseParameters VLIE.decode SettingsSamples.payload 0 = Some r /\
    (forall fuel,
       (Z.to_nat (Buffer.byteLength SettingsSamples.payload - 0) < fuel)%nat ->
       Http3SettingsFrame.parseParameters_while VLIE.decode fuel SettingsSamples.payload 0 []
       = Some r) /\
    (forall ps off', r = Ok (ps, off') ->
       Buffer.byteLength SettingsSamples.payload <= off' /\
       0 + 2 * Z.of_nat (length ps) <= off').
Proof.
  exact (parseParameters_terminates VLIE.decode VLIE_decode_advances_strictly
           SettingsSamples.payload 0).
Defined.

Lemma settings_payload_roundtrip_witness :
  Http3SettingsFrame.parseParameters VLIE.decode SettingsSamples.payload 0
    = Some (Ok (Http3SettingsFrame.settingsParameters SettingsSamples.frame,
                Buffer.byteLength SettingsSamples.payload)) /\
  Http3SettingsFrame.fromPayload VLIE.decode SettingsSamples.payload 0
    = Some (Ok SettingsSamples.frame).
Proof.
  apply (settings_payload_roundtrip VLIE.encode VLIE.decode
           VLIE_decode_advances_strictly VLIE_decode_encode).
  reflexivity.
Defined.

Lemma settings_dangling_identifier_fails_witness :
  exists e,
    Http3SettingsFrame.parseParameters VLIE.decode (SettingsSamples.payload ++ [x07]) 0
      = Some (Err e) /\
    Http3SettingsFrame.fromPayload VLIE.decode (SettingsSamples.payload ++ [x07]) 0
      = Some (Err e).
Proof.
  apply (settings_dangling_identifier_fails VLIE.encode VLIE.decode
           VLIE_decode_advances_strictly VLIE_decode_encode VLIE_decode_within
           SettingsSamples.frame SettingsSamples.payload 7); reflexivity.
Defined.

Lemma settings_frame_roundtrip_witness :
  exists buf lenBytes,
    Http3SettingsFrame.toBuffer VLIE.encode VLIE.getEncodedByteLength
      SettingsSamples.SETTINGS SettingsSamples.frame = Ok buf /\
    VLIE.decode buf 0 = Ok (VLIE.mkVLIEOffset 8 (Buffer.byteLength lenBytes)) /\
    Buffer.readUInt8 buf (Buffer.byteLength lenBytes) = Ok 4 /\
    Http3SettingsFrame.fromPayload VLIE.decode buf (Buffer.byteLength lenBytes + 1)
      = Some (Ok SettingsSamples.frame) /\
    Buffer.byteLength buf = Buffer.byteLength lenBytes + 1 + 8.
Proof.
  destruct (settings_frame_roundtrip VLIE.encode VLIE.decode VLIE.getEncodedByteLength
              SettingsSamples.SETTINGS VLIE_encode_length VLIE_decode_advances_strictly
              VLIE_decode_encode SettingsSamples.frame _ eq_refl)
    as (lenBytes & _ & H).
  eexists _, lenBytes. split; [reflexivity | exact H].
Defined.

Lemma header_parse_reads_up_to_offset_witness :
  exists ho,
    SpecWire.parseHeader (Samples.short_header ++ Samples.short_payload) 0 = Ok ho /\
    forall t',
      SpecWire.parseHeader (Samples.short_header ++ t') 0 = Ok ho.
Proof.
  eexists. split; [vm_compute; reflexivity|]. intros t'.
  apply (@header_parse_reads_up_to_offset SpecWire.wire SpecWire.IsVersionNegotationFlag
           VLIE.decode VLIE_decode_value_nonneg VLIE_decode_advances VLIE_decode_local
           Samples.short_header Samples.short_payload t' 0).
  - vm_compute; reflexivity.
  - vm_compute; discriminate.
Defined.
